(** * sitebuilder: a shallow embedding of the build engine

    The development follows the Python package [sitebuilder]:

    - [urls.py]      : [UrlPath], [Urls] (the ledger [urls.txt]);
    - [actions.py]   : [Result], [Redirect], [SourceAction], [WithMeta],
                       [Copy], [index_html_processor];
    - [resources.py] : [Resources];
    - [__init__.py]  : [build].

    Python values are modelled as follows.  A [str] is a [string] (a
    sequence of bytes; comparison is byte-wise, which on UTF-8 text is the
    code point order Python uses).  A [pathlib.Path] is the list of its
    components.  The file system is a finite map from paths to nodes; a
    function that touches the file system takes the map and returns the new
    one.  A call that may raise returns a [comp]: a value or the exception.
    A [set] is a [gset], a [dict] that is only looked up is a [gmap], and a
    [dict] whose iteration order is observed is an association list. *)

From Stdlib Require Import Ascii.
From stdpp Require Import gmap strings list fin_maps sorting.



(** ** Exceptions *)

Abbreviation Path := (list string).

(** The exceptions the package raises itself carry the data their message
    is formatted from; the ones raised by the operating system carry the
    path.  [OtherException] stands for any other instance of Python's
    [Exception] (raised by a transformation or by the TOML parser), given
    by an opaque description. *)
Inductive exn :=
| FileNotFoundError (p : Path)
| NotADirectoryError (p : Path)
| IsADirectoryError (p : Path)
| FileExistsError (p : Path)
| StopIteration
| ValueError_path_must_be_absolute (s : string)
| ValueError_not_relative_to (p base : Path)
| ValueError_empty_name (p : Path)
| RuntimeError_not_in_expected_format (p : Path)
| RuntimeError_duplicate_url (s : string)
| FileExistsError_refusing_to_overwrite (p : Path)
| FileExistsError_dest_not_a_directory (p : Path)
| OtherException (description : string).

Global Instance exn_eq_dec : EqDecision exn.
Proof. solve_decision. Defined.

Inductive comp (A : Type) :=
| Val (a : A)
| Exc (e : exn).
Arguments Val {A} a.
Arguments Exc {A} e.

Global Instance comp_eq_dec `{EqDecision A} : EqDecision (comp A).
Proof. solve_decision. Defined.

Definition comp_bind {A B} (m : comp A) (k : A -> comp B) : comp B :=
  match m with
  | Val a => k a
  | Exc e => Exc e
  end.

Notation "'do' x <- m ; k" := (comp_bind m (fun x => k))
  (at level 10, x pattern, m at level 100, k at level 200).

Definition is_Val {A} (m : comp A) : bool :=
  match m with Val _ => true | Exc _ => false end.

(** ** Strings *)

Definition LF : ascii := "010"%char.
Definition CR : ascii := "013"%char.
Definition nl : string := String LF "".

(** [s.startswith(p)] *)
Definition startswith (s p : string) : bool := String.prefix p s.

(** [s.endswith(suf)] *)
Fixpoint endswith (s suf : string) : bool :=
  if String.eqb s suf then true
  else match s with
       | "" => false
       | String _ s' => endswith s' suf
       end.

(** [s.removesuffix(suf)] *)
Fixpoint removesuffix (s suf : string) : string :=
  match s with
  | "" => ""
  | String c s' => if String.eqb s suf then "" else String c (removesuffix s' suf)
  end.

(** [s.removeprefix(p)] *)
Definition removeprefix (s p : string) : string :=
  if String.prefix p s
  then String.substring (String.length p) (String.length s - String.length p) s
  else s.

(** [c in s] for a character [c] *)
Fixpoint contains (s : string) (c : ascii) : bool :=
  match s with
  | "" => false
  | String a s' => Stdlib.Strings.Ascii.eqb a c || contains s' c
  end.

(** [sep.join(l)] and [''.join(l)] *)
Definition join (sep : string) (l : list string) : string := String.concat sep l.
Definition join0 (l : list string) : string := String.concat "" l.

(** Iterating over a text file yields its lines, each with its line feed,
    the last one possibly without. *)
Fixpoint readlines (s : string) : list string :=
  match s with
  | "" => []
  | String c s' =>
      if Stdlib.Strings.Ascii.eqb c LF then nl :: readlines s'
      else match readlines s' with
           | [] => [String c ""]
           | l :: ls => String c l :: ls
           end
  end.

(** [f.readline()] on a freshly opened file: the first line, or [''] *)
Definition readline (s : string) : string :=
  match readlines s with
  | [] => ""
  | l :: _ => l
  end.

(** Files are opened in text mode with the default [newline=None]: on
    reading, a carriage return, alone or followed by a line feed, is
    delivered as one line feed. *)
Fixpoint universal_newlines (s : string) : string :=
  match s with
  | "" => ""
  | String c s' =>
      if Stdlib.Strings.Ascii.eqb c CR then
        match s' with
        | String c' s'' =>
            if Stdlib.Strings.Ascii.eqb c' LF then String LF (universal_newlines s'')
            else String LF (universal_newlines s')
        | "" => nl
        end
      else String c (universal_newlines s')
  end.

(** ** Paths

    A path is the list of its components, outermost first.  The model has
    no symbolic links and gives [..] no meaning: the paths the engine
    builds come from walking the source tree and from joining names. *)

(** [p.name] *)
Definition name (p : Path) : string := List.last p "".

(** [p.parent] *)
Definition parent (p : Path) : Path := removelast p.

(** The proper ancestors of [p], outermost first. *)
Definition ancestors (p : Path) : list Path :=
  (fun n => take n p) <$> seq 0 (length p).

(** [str(p)] for a relative path *)
Definition str_relpath (p : Path) : string :=
  match p with
  | [] => "."
  | _ => join "/" p
  end.

(** [p.relative_to(base)] *)
Fixpoint relative_to_go (p base : Path) : option Path :=
  match base with
  | [] => Some p
  | b :: base' =>
      match p with
      | c :: p' => if String.eqb c b then relative_to_go p' base' else None
      | [] => None
      end
  end.

Definition relative_to (p base : Path) : comp Path :=
  match relative_to_go p base with
  | Some r => Val r
  | None => Exc (ValueError_not_relative_to p base)
  end.

(** ** The file system *)

Inductive node :=
| File (content : string)
| Dir.

Global Instance node_eq_dec : EqDecision node.
Proof. solve_decision. Defined.

Abbreviation FS := (gmap Path node).

(** The root directory always exists. *)
Definition node_at (fs : FS) (p : Path) : option node :=
  match p with
  | [] => Some Dir
  | _ => fs !! p
  end.

Definition is_file_at (fs : FS) (p : Path) : bool :=
  match node_at fs p with
  | Some (File _) => true
  | _ => false
  end.

(** [p.exists()] *)
Definition exists_ (fs : FS) (p : Path) : bool :=
  match node_at fs p with
  | Some _ => true
  | None => false
  end.

(** [p.is_dir()] *)
Definition is_dir (fs : FS) (p : Path) : bool :=
  match node_at fs p with
  | Some Dir => true
  | _ => false
  end.

(** In a well-formed file system every entry lies in a directory. *)
Definition wf (fs : FS) : Prop :=
  map_Forall (fun p _ => p ≠ [] ∧ is_dir fs (parent p) = true) fs.

Global Instance wf_dec fs : Decision (wf fs).
Proof. unfold wf. apply _. Defined.

(** The error the operating system reports for a path that is not there:
    [ENOTDIR] when one of its ancestors is a file, [ENOENT] otherwise. *)
Definition missing (fs : FS) (p : Path) : exn :=
  if existsb (is_file_at fs) (ancestors p)
  then NotADirectoryError p
  else FileNotFoundError p.

(** [p.read_bytes()] *)
Definition read_bytes (fs : FS) (p : Path) : comp string :=
  match node_at fs p with
  | Some (File c) => Val c
  | Some Dir => Exc (IsADirectoryError p)
  | None => Exc (missing fs p)
  end.

(** [p.open()] for reading, then reading the text *)
Definition read_text (fs : FS) (p : Path) : comp string :=
  do c <- read_bytes fs p; Val (universal_newlines c).

(** What creating the entry [p] needs of its parent directory. *)
Definition check_parent (fs : FS) (p : Path) : comp unit :=
  match node_at fs (parent p) with
  | Some Dir => Val tt
  | Some (File _) => Exc (NotADirectoryError p)
  | None => Exc (missing fs p)
  end.

(** [p.write_text(s)], [p.write_bytes(s)], [p.open("w")] followed by the
    writes: the file is created or replaced. *)
Definition write_file (fs : FS) (p : Path) (s : string) : comp FS :=
  match node_at fs p with
  | Some Dir => Exc (IsADirectoryError p)
  | Some (File _) => Val (<[p := File s]> fs)
  | None => do _ <- check_parent fs p; Val (<[p := File s]> fs)
  end.

(** [p.mkdir()] *)
Definition mkdir (fs : FS) (p : Path) : comp FS :=
  match node_at fs p with
  | Some _ => Exc (FileExistsError p)
  | None => do _ <- check_parent fs p; Val (<[p := Dir]> fs)
  end.

(** [p.touch()] *)
Definition touch (fs : FS) (p : Path) : comp FS :=
  match node_at fs p with
  | Some _ => Val fs
  | None => do _ <- check_parent fs p; Val (<[p := File ""]> fs)
  end.

(** [shutil.rmtree(p)] on a directory: [p] and everything below it go. *)
Definition rmtree (fs : FS) (p : Path) : FS :=
  filter (fun '(q, _) => ¬ p `prefix_of` q) fs.

(** [p.mkdir(parents=True, exist_ok=True)], on the reversed path [c :: rp]
    (innermost component first).  As pathlib does it: try to create the
    directory; when the parent is missing create the parent first and try
    again; any other failure is forgiven when the path is a directory. *)
Fixpoint mkdir_parents_go (fs : FS) (rp : list string) : comp FS :=
  match rp with
  | [] => Val fs
  | _ :: rparent =>
      let p := rev rp in
      match mkdir fs p with
      | Val fs' => Val fs'
      | Exc (FileNotFoundError _) =>
          do fs' <- mkdir_parents_go fs rparent;
          match mkdir fs' p with
          | Val fs'' => Val fs''
          | Exc e => if is_dir fs' p then Val fs' else Exc e
          end
      | Exc e => if is_dir fs p then Val fs else Exc e
      end
  end.

Definition mkdir_parents (fs : FS) (p : Path) : comp FS :=
  mkdir_parents_go fs (rev p).

(** What a file system [fs'] is to the [fs] it comes from by creating
    directories on the way to [p]. *)
Definition extends_towards (fs fs' : FS) (p : Path) : Prop :=
  (forall q n, fs !! q = Some n -> fs' !! q = Some n)
  ∧ (forall q, fs !! q = None -> fs' !! q ≠ None ->
       fs' !! q = Some Dir ∧ q `prefix_of` p).

(** [q] lies below the directory [d]. *)
Definition below (d q : Path) : Prop := d `prefix_of` q ∧ q ≠ d.

(** [p.iterdir()]: the names of the entries of the directory [p]. *)
Definition iterdir (fs : FS) (p : Path) : comp (list Path) :=
  match node_at fs p with
  | Some Dir =>
      Val (filter (fun q => parent q = p ∧ q ≠ []) (fst <$> map_to_list fs))
  | Some (File _) => Exc (NotADirectoryError p)
  | None => Exc (missing fs p)
  end.

(** ** urls.py *)

Module UrlPath.

Record t := mk { path : string }.

Global Instance eq_dec : EqDecision t.
Proof. solve_decision. Defined.

Global Instance countable : Countable t :=
  inj_countable' path mk (fun u => match u with mk _ => eq_refl end).

(** [UrlPath(s)]: the constructor with its [__post_init__] check. *)
Definition new (s : string) : comp t :=
  if startswith s "/" then Val (mk s)
  else Exc (ValueError_path_must_be_absolute s).

(** The order [dataclass(order=True)] gives: that of the [path] strings. *)
Definition le (u v : t) : Prop := String.le (path u) (path v).

Global Instance le_dec : RelDecision le.
Proof. intros u v. unfold le. apply _. Defined.

(** [sorted(urls)] *)
Definition sorted (urls : gset t) : list t := merge_sort le (elements urls).

(** A path that fits on one line of a text file: absolute, and free of
    line feeds and carriage returns. *)
Definition line_safe (u : t) : Prop :=
  startswith (path u) "/" = true ∧
  contains (path u) LF = false ∧
  contains (path u) CR = false.

End UrlPath.

Module Urls.

Definition FILE_HEADER : string := "# sitebuilder URLs" +:+ nl.

(** [Urls.path(basedir)] *)
Definition path (basedir : Path) : Path := basedir ++ ["urls.txt"].

(** The loop of [Urls.read] over the lines after the header. *)
Fixpoint read_lines (ls : list string) (urls : gset UrlPath.t)
  : comp (gset UrlPath.t) :=
  match ls with
  | [] => Val urls
  | line :: ls' =>
      do url <- UrlPath.new (removesuffix line nl);
      if decide (url ∈ urls)
      then Exc (RuntimeError_duplicate_url (UrlPath.path url))
      else read_lines ls' ({[ url ]} ∪ urls)
  end.

(** [Urls.read(basedir)] *)
Definition read (basedir : Path) (fs : FS) : comp (gset UrlPath.t) :=
  match read_text fs (path basedir) with
  | Exc (FileNotFoundError _) => Val ∅
  | Exc e => Exc e
  | Val text =>
      match readlines text with
      | [] => Exc StopIteration
      | first :: rest =>
          if decide (first = FILE_HEADER) then read_lines rest ∅
          else Exc (RuntimeError_not_in_expected_format (path basedir))
      end
  end.

(** The text [Urls(urls).write] puts in the file. *)
Definition contents (urls : gset UrlPath.t) : string :=
  FILE_HEADER +:+
  join0 ((fun u => UrlPath.path u +:+ nl) <$> UrlPath.sorted urls).

(** [Urls(urls).write(basedir)] *)
Definition write (urls : gset UrlPath.t) (basedir : Path) (fs : FS)
  : comp FS :=
  let dest := path basedir in
  do _ <- match read_text fs dest with
          | Val text =>
              if decide (readline text = FILE_HEADER) then Val tt
              else Exc (FileExistsError_refusing_to_overwrite dest)
          | Exc (FileNotFoundError _) => Val tt
          | Exc e => Exc e
          end;
  write_file fs dest (contents urls).

End Urls.

(** A ledger file that is absent, or that starts with the header: what
    [Urls.read] and [Urls.write] accept. *)
Definition ledger_ok (fs : FS) (basedir : Path) : Prop :=
  (fs !! Urls.path basedir = None
   ∧ missing fs (Urls.path basedir) = FileNotFoundError (Urls.path basedir))
  ∨ (exists raw, fs !! Urls.path basedir = Some (File raw)
                 ∧ readline (universal_newlines raw) = Urls.FILE_HEADER).


(** ** resources.py *)

(** [Resources.templates]: template name to template text. *)
Abbreviation Resources := (gmap string string).

Module Resources.

(** The loop of [Resources.load] over the entries of the directory. *)
Fixpoint read_all (fs : FS) (entries : list Path) (templates : Resources)
  : comp Resources :=
  match entries with
  | [] => Val templates
  | p :: rest =>
      do text <- read_text fs p;
      read_all fs rest (<[ name p := text ]> templates)
  end.

(** [Resources.load(basedir)] *)
Definition load (basedir : Path) (fs : FS) : comp Resources :=
  do entries <- iterdir fs (basedir ++ ["templates"]);
  read_all fs entries ∅.

End Resources.

(** ** actions.py *)

Definition META_DELIMITER : string := "---" +:+ nl.

(** A metadata block: the table [tomllib] parses, keys and values being
    strings, in the order of the document. *)
Abbreviation Meta := (list (string * string)).

Record Result := mkResult {
  success : bool;
  warnings : list string;
  src : string;
  dest : string
}.

(** [p.suffix] of Python 3.12 on the name [nm]: the part from the last
    dot on, when that dot is neither the first nor the last character. *)
Fixpoint rfind_dot (s : string) : option nat :=
  match s with
  | "" => None
  | String c s' =>
      match rfind_dot s' with
      | Some i => Some (S i)
      | None => if Stdlib.Strings.Ascii.eqb c "."%char then Some 0 else None
      end
  end.

Definition suffix_of_name (nm : string) : string :=
  match rfind_dot nm with
  | Some i =>
      if Nat.ltb 0 i && Nat.ltb i (String.length nm - 1)
      then String.substring i (String.length nm - i) nm
      else ""
  | None => ""
  end.

Definition suffix (p : Path) : string := suffix_of_name (name p).

(** [p.with_suffix("")] *)
Definition with_suffix_empty (p : Path) : comp Path :=
  let nm := name p in
  if decide (nm = "") then Exc (ValueError_empty_name p)
  else
    let stem := String.substring 0 (String.length nm - String.length (suffix_of_name nm)) nm in
    Val (parent p ++ [stem]).

(** [Path(s)] for a string [s]: the components between the slashes; empty
    components and [.] are dropped.  (A leading slash, which would make
    the path absolute, is outside the model.) *)
Fixpoint split_slash (s : string) : list string :=
  match s with
  | "" => [""]
  | String c s' =>
      if Stdlib.Strings.Ascii.eqb c "/"%char then "" :: split_slash s'
      else match split_slash s' with
           | [] => [String c ""]
           | w :: ws => String c w :: ws
           end
  end.

Definition Path_of_string (s : string) : Path :=
  filter (fun w => w <> "" ∧ w <> ".") (split_slash s).

(** *** Subclasses of [SourceAction]

    A subclass is given by what it overrides: [dest_path], and [run_inner],
    which in every subclass of the package computes a text and writes it
    at [dest].  [produce] is that computation; it gets the source path and,
    for a subclass of [WithMeta], the parsed [meta] and [contents]. *)
Record SourceClass := mkSourceClass {
  qualname : string;
  with_meta : bool;
  dest_path : Path -> comp Path;
  produce : Path -> Meta -> string -> Resources -> FS -> comp string
}.

Record SourceAction := mkSourceAction {
  cls : SourceClass;
  source : Path;
  meta : Meta;
  contents : string
}.

Inductive Action :=
| Redirect (old_url new_url : string)
| Source (a : SourceAction).

(** [class Copy(SourceAction)] *)
Definition Copy : SourceClass := {|
  qualname := "Copy";
  with_meta := false;
  dest_path := fun p => Val p;
  produce := fun source _ _ _ fs => read_bytes fs source
|}.

(** [index_html_processor(processing_func)] *)
Definition index_html_processor
    (processing_func : string -> Meta -> string -> Resources -> comp string)
  : SourceClass := {|
  qualname := "index_html_processor.<locals>.IndexHtmlProcessor";
  with_meta := true;
  dest_path := fun p => do q <- with_suffix_empty p; Val (q ++ ["index.html"]);
  produce := fun source meta contents resources _ =>
               processing_func (name source) meta contents resources
|}.

(** What the engine takes from outside the package sources: functions of
    the Python library, the class [SCSS], which [__init__.py] imports from
    [actions.py] and whose definition is not part of the sources at hand,
    and the order in which the thread pool gets to run its tasks. *)
Class Externals := {
  (** [tomllib.loads] *)
  toml_loads : string -> comp Meta;
  (** an empty document is an empty table *)
  toml_loads_empty : toml_loads "" = Val [];
  (** [''.join(traceback.format_exception_only(e))] *)
  format_exception_only : exn -> string;
  (** [repr] of a string, of a path, of a metadata table *)
  repr_str : string -> string;
  repr_path : Path -> string;
  repr_meta : Meta -> string;
  (** the default action for [.scss] files *)
  SCSS : SourceClass;
  (** the order in which tasks submitted together are executed *)
  schedule : forall {A : Type}, list A -> list A;
  schedule_perm : forall (A : Type) (l : list A), schedule l ≡ₚ l
}.

Section actions.

Context `{Externals}.

(** The loop of [WithMeta.__post_init__] over the lines of the source:
    the result is [(meta_lines, contents_lines)]. *)
Fixpoint split_meta (ls meta_lines : list string)
  : list string * list string :=
  match ls with
  | [] => ([], meta_lines)
  | line :: rest =>
      if decide (line = META_DELIMITER) then (meta_lines, rest)
      else split_meta rest (meta_lines ++ [line])
  end.

(** [WithMeta.__post_init__] on the text of the source. *)
Definition parse_with_meta (text : string) : comp (Meta * string) :=
  let '(meta_lines, contents_lines) := split_meta (readlines text) [] in
  do meta <- toml_loads (join0 meta_lines);
  Val (meta, join0 contents_lines).

(** [action_class(source=path)] *)
Definition construct (c : SourceClass) (source : Path) (fs : FS)
  : comp SourceAction :=
  if with_meta c then
    do text <- read_text fs source;
    do mc <- parse_with_meta text;
    Val (mkSourceAction c source (fst mc) (snd mc))
  else Val (mkSourceAction c source [] "").

(** [str(action)]: the [repr] the dataclass decorator generates. *)
Definition str_action (a : Action) : string :=
  match a with
  | Redirect old_url new_url =>
      "Redirect(source=None, old_url=" +:+ repr_str old_url +:+
      ", new_url=" +:+ repr_str new_url +:+ ")"
  | Source a =>
      qualname (cls a) +:+ "(source=" +:+ repr_path (source a) +:+
      (if with_meta (cls a)
       then ", meta=" +:+ repr_meta (meta a) +:+
            ", contents=" +:+ repr_str (contents a)
       else "") +:+ ")"
  end.

(** [action.url(srcdir)] *)
Definition url (a : Action) (srcdir : Path) : comp UrlPath.t :=
  match a with
  | Redirect old_url _ => UrlPath.new old_url
  | Source a =>
      do rel <- relative_to (source a) srcdir;
      do d <- dest_path (cls a) rel;
      UrlPath.new ("/" +:+ str_relpath d)
  end.

Definition dq : string := String "034"%char "".

(** [Redirect.REDIRECT_TEMPLATE.format(new_url=new_url)] *)
Definition redirect_page (new_url : string) : string :=
  "<!DOCTYPE html>" +:+ nl +:+
  "<html lang=" +:+ dq +:+ "en-us" +:+ dq +:+ ">" +:+ nl +:+
  "<head>" +:+ nl +:+
  "  <meta charset=" +:+ dq +:+ "utf-8" +:+ dq +:+ ">" +:+ nl +:+
  "  <meta http-equiv=" +:+ dq +:+ "refresh" +:+ dq +:+
    " content=" +:+ dq +:+ "0; url=" +:+ new_url +:+ dq +:+ ">" +:+ nl +:+
  "  <title>Redirect</title>" +:+ nl +:+
  "</head>" +:+ nl +:+
  "<body>" +:+ nl +:+
  "  <p>This page has moved: <a href=" +:+ dq +:+ new_url +:+ dq +:+ ">" +:+
    new_url +:+ "</a></p>" +:+ nl +:+
  "</body>" +:+ nl +:+
  "</html>" +:+ nl.

(** The destination of a redirect, relative to the destination
    directory. *)
Definition redirect_dest_relpath (old_url : string) : Path :=
  let old_relative := Path_of_string (removeprefix old_url "/") in
  if endswith old_url "/" then old_relative ++ ["index.html"]
  else old_relative.

(** [Redirect.run] *)
Definition run_redirect (old_url new_url : string) (destdir : Path) (fs : FS)
  : comp Result * FS :=
  let dest_relpath := redirect_dest_relpath old_url in
  let dest := destdir ++ dest_relpath in
  match write_file fs dest (redirect_page new_url) with
  | Exc e => (Exc e, fs)
  | Val fs' =>
      (Val {| success := true;
              warnings := [];
              src := "(generated-redirect)";
              dest := name destdir +:+ "/" +:+ str_relpath dest_relpath |},
       fs')
  end.

(** [run_inner] of a subclass: compute the text, write it at [dest]. *)
Definition run_inner (a : SourceAction) (dest : Path) (resources : Resources)
    (fs : FS) : comp FS :=
  do out <- produce (cls a) (source a) (meta a) (contents a) resources fs;
  write_file fs dest out.

(** [replace(result, success=False)] followed by
    [result.warnings.append(w)] *)
Definition failed (result : Result) (w : string) : Result :=
  {| success := false;
     warnings := warnings result ++ [w];
     src := src result;
     dest := dest result |}.

(** [SourceAction.run] *)
Definition run_source (a : SourceAction) (srcdir destdir : Path)
    (resources : Resources) (fs : FS) : comp Result * FS :=
  match relative_to (source a) srcdir with
  | Exc e => (Exc e, fs)
  | Val src_relpath =>
      match dest_path (cls a) src_relpath with
      | Exc e => (Exc e, fs)
      | Val dest_relpath =>
          let result := {| success := true;
                           warnings := [];
                           src := name srcdir +:+ "/" +:+ str_relpath src_relpath;
                           dest := name destdir +:+ "/" +:+ str_relpath dest_relpath |} in
          let dest := destdir ++ dest_relpath in
          match mkdir_parents fs (parent dest) with
          | Exc e => (Exc e, fs)
          | Val fs1 =>
              match run_inner a dest resources fs1 with
              | Val fs2 => (Val result, fs2)
              | Exc e =>
                  (Val (failed result
                          (removesuffix (format_exception_only e) nl)),
                   fs1)
              end
          end
      end
  end.

(** [action.run(srcdir, destdir, resources)] *)
Definition run (a : Action) (srcdir destdir : Path) (resources : Resources)
    (fs : FS) : comp Result * FS :=
  match a with
  | Redirect old_url new_url => run_redirect old_url new_url destdir fs
  | Source a => run_source a srcdir destdir resources fs
  end.

End actions.

(** ** __init__.py *)

Definition SITEBUILDER_DEST_MARKER_FILENAME : string := ".sitebuilder-dest-dir".

(** What [log] is called with.  [render] below gives the text printed. *)
Inductive log_entry :=
| LogWalkError (e : exn)
| LogMultipleActions (url : UrlPath.t) (action_names : list string)
| LogNoMarker
| LogResult (result : Result)
| LogWarning (warning : string)
| LogForgotten (url : UrlPath.t).

(** How a call of [build] ends: it returns an exit code, or an exception
    leaves it. *)
Inductive flow (A : Type) :=
| Next (a : A)
| Return (code : Z)
| Raise (e : exn).
Arguments Next {A} a.
Arguments Return {A} code.
Arguments Raise {A} e.

(** The statements of [build] act on the file system and on the log. *)
Definition M (A : Type) : Type :=
  FS * list log_entry -> flow A * (FS * list log_entry).

Definition ret {A} (a : A) : M A := fun s => (Next a, s).

Definition bind {A B} (m : M A) (k : A -> M B) : M B :=
  fun s =>
    match m s with
    | (Next a, s') => k a s'
    | (Return c, s') => (Return c, s')
    | (Raise e, s') => (Raise e, s')
    end.

Notation "'let*' x ':=' m 'in' k" := (bind m (fun x => k))
  (at level 10, x pattern, m at level 100, k at level 200).

(** [return code] *)
Definition return_ {A} (code : Z) : M A := fun s => (Return code, s).

(** [log(...)] *)
Definition log (entry : log_entry) : M unit :=
  fun '(fs, l) => (Next tt, (fs, l ++ [entry])).

(** A call that reads the file system. *)
Definition reading {A} (f : FS -> comp A) : M A :=
  fun '(fs, l) =>
    match f fs with
    | Val a => (Next a, (fs, l))
    | Exc e => (Raise e, (fs, l))
    end.

(** A call that changes the file system. *)
Definition writing (f : FS -> comp FS) : M unit :=
  fun '(fs, l) =>
    match f fs with
    | Val fs' => (Next tt, (fs', l))
    | Exc e => (Raise e, (fs, l))
    end.

(** A statement that leaves the file system as it is. *)
Definition read_only {A} (m : M A) : Prop :=
  forall fs l r fs' l', m (fs, l) = (r, (fs', l')) -> fs' = fs.



(** [for x in xs: body(x)] *)
Fixpoint for_each {A} (xs : list A) (body : A -> M unit) : M unit :=
  match xs with
  | [] => ret tt
  | x :: xs' => let* _ := body x in for_each xs' body
  end.

(** [d.setdefault(k, []).append(v)] on a dictionary kept in insertion
    order. *)
Fixpoint setdefault_append (d : list (UrlPath.t * list string))
    (k : UrlPath.t) (v : string) : list (UrlPath.t * list string) :=
  match d with
  | [] => [(k, [v])]
  | (k', vs) :: d' =>
      if decide (k' = k) then (k', vs ++ [v]) :: d'
      else (k', vs) :: setdefault_append d' k v
  end.

Section build.

Context `{Externals}.

(** [Args.__str__] and the styles of [logging.py] *)
Definition esc : string := String "027"%char "".
Definition dim (s : string) : string := esc +:+ "[2m" +:+ s +:+ esc +:+ "[22m".
Definition red (s : string) : string := esc +:+ "[31m" +:+ s +:+ esc +:+ "[39m".
Definition green (s : string) : string := esc +:+ "[32m" +:+ s +:+ esc +:+ "[39m".
Definition yellow (s : string) : string := esc +:+ "[33m" +:+ s +:+ esc +:+ "[39m".

(** [Result.__str__] *)
Definition str_result (r : Result) : string :=
  let ok := if success r then "  " +:+ green "OK" else red "FAIL" in
  ok +:+ " " +:+ dim (src r) +:+ " -> " +:+ dim (dest r).

(** The line each call of [log] prints. *)
Definition render (entry : log_entry) : string :=
  match entry with
  | LogWalkError e =>
      "Error while walking " +:+
      repr_str (match e with
                | FileNotFoundError p | NotADirectoryError p => "/" +:+ join "/" p
                | _ => ""
                end) +:+
      ": " +:+ format_exception_only e
  | LogMultipleActions url action_names =>
      "Multiple actions produce " +:+ red (UrlPath.path url) +:+ ": " +:+
      join ", " action_names
  | LogNoMarker =>
      "dest dir doesn't contain the marker file; refusing to overwrite it"
  | LogResult r => str_result r
  | LogWarning w => yellow ("     ↪ " +:+ w)
  | LogForgotten url => "Forgotten URL: " +:+ red (UrlPath.path url)
  end.

Definition DEFAULT_ACTIONS : gmap string SourceClass := {[ ".scss" := SCSS ]}.

(** [ChainMap(action_config or {}, DEFAULT_ACTIONS).get(suffix)] *)
Definition combined_actions (action_config : option (gmap string SourceClass))
    (suffix : string) : option SourceClass :=
  match default ∅ action_config !! suffix with
  | Some c => Some c
  | None => DEFAULT_ACTIONS !! suffix
  end.

(** The files [srcdir.walk()] comes across: those below [srcdir].  The
    order in which a directory lists its entries is the system's; the
    model takes the one in which the map enumerates them. *)
Definition walk_files (fs : FS) (srcdir : Path) : list Path :=
  fst <$> filter (fun '(p, n) => is_file_at fs p = true ∧
                                 srcdir `prefix_of` p ∧ p ≠ srcdir)
                 (map_to_list fs).

(** Load actions from srcdir *)
Fixpoint load_actions (action_config : option (gmap string SourceClass))
    (files : list Path) (fs : FS) : comp (list Action) :=
  match files with
  | [] => Val []
  | path :: rest =>
      do a <- construct (default Copy (combined_actions action_config (suffix path)))
                path fs;
      do actions <- load_actions action_config rest fs;
      Val (Source a :: actions)
  end.

Definition walk_and_load (action_config : option (gmap string SourceClass))
    (srcdir : Path) : M (list Action) :=
  let* dir := reading (fun fs => Val (node_at fs srcdir)) in
  match dir with
  | Some Dir =>
      reading (fun fs => load_actions action_config (walk_files fs srcdir) fs)
  | Some (File _) =>
      let* _ := log (LogWalkError (NotADirectoryError srcdir)) in ret []
  | None =>
      let* _ := log (LogWalkError (FileNotFoundError srcdir)) in ret []
  end.

(** Load redirects *)
Definition load_redirects (basedir : Path) (fs : FS) : comp (list Action) :=
  do text <- read_bytes fs (basedir ++ ["redirects.toml"]);
  do redirects <- toml_loads text;
  Val ((fun '(old_url, new_url) => Redirect old_url new_url) <$> redirects).

(** Gather the complete set of URLs that will be produced *)
Fixpoint gather_urls (actions : list Action) (srcdir : Path)
    (url_actions : list (UrlPath.t * list string))
  : comp (list (UrlPath.t * list string)) :=
  match actions with
  | [] => Val url_actions
  | action :: rest =>
      do u <- url action srcdir;
      gather_urls rest srcdir (setdefault_append url_actions u (str_action action))
  end.

(** Check for conflicting outputs *)
Fixpoint check_conflicts (url_actions : list (UrlPath.t * list string))
  : M unit :=
  match url_actions with
  | [] => ret tt
  | (url, action_names) :: rest =>
      if decide (1 < length action_names) then
        let* _ := log (LogMultipleActions url action_names) in
        return_ 1
      else check_conflicts rest
  end.

(** Clear out the dest dir *)
Definition clear_dest (destdir : Path) : M unit :=
  let marker := destdir ++ [SITEBUILDER_DEST_MARKER_FILENAME] in
  let* there := reading (fun fs => Val (exists_ fs destdir)) in
  let* _ :=
    if there : bool then
      let* isdir := reading (fun fs => Val (is_dir fs destdir)) in
      if isdir : bool then
        let* marked := reading (fun fs => Val (exists_ fs marker)) in
        if negb marked then
          let* _ := log LogNoMarker in
          return_ 1
        else writing (fun fs => Val (rmtree fs destdir))
      else fun s => (Raise (FileExistsError_dest_not_a_directory destdir), s)
    else ret tt in
  let* _ := writing (fun fs => mkdir fs destdir) in
  writing (fun fs => touch fs marker).

(** The thread pool runs the tasks one after the other in the order
    the scheduler chose; each task is numbered by its place in the
    list of actions. *)
Fixpoint run_tasks (tasks : list (nat * Action)) (srcdir destdir : Path)
    (resources : Resources) (fs : FS)
  : list (nat * comp Result) * FS :=
  match tasks with
  | [] => ([], fs)
  | (i, action) :: rest =>
      let '(r, fs1) := run action srcdir destdir resources fs in
      let '(rs, fs2) := run_tasks rest srcdir destdir resources fs1 in
      ((i, r) :: rs, fs2)
  end.

(** The exception of the first task to raise, if any. *)
Fixpoint first_exception (done : list (nat * comp Result)) : option exn :=
  match done with
  | [] => None
  | (_, Exc e) :: _ => Some e
  | (_, Val _) :: rest => first_exception rest
  end.

(** The result of task [i]. *)
Fixpoint result_of (done : list (nat * comp Result)) (i : nat)
  : option Result :=
  match done with
  | [] => None
  | (j, r) :: rest =>
      if decide (j = i)
      then match r with Val x => Some x | Exc _ => None end
      else result_of rest i
  end.

(** [await gather] on all futures: all tasks run; the first exception raised
    by one of them leaves [gather]; otherwise the results come in the
    order of submission. *)
Definition gather (actions : list Action) (srcdir destdir : Path)
    (resources : Resources) : M (list Result) :=
  fun '(fs, l) =>
    let tasks := schedule (imap (fun i a => (i, a)) actions) in
    let '(done, fs') := run_tasks tasks srcdir destdir resources fs in
    match first_exception done with
    | Some e => (Raise e, (fs', l))
    | None => (Next (omap (result_of done) (seq 0 (length actions))), (fs', l))
    end.

(** Check for forgotten URLs and either fail or update the URLs file *)
Definition audit (old_urls new_urls : gset UrlPath.t) (basedir : Path)
  : M Empty_set :=
  let forgotten_urls := old_urls ∖ new_urls in
  if decide (forgotten_urls ≠ ∅) then
    let* _ := for_each (UrlPath.sorted forgotten_urls)
                (fun url => log (LogForgotten url)) in
    return_ 1
  else
    let* _ := writing (Urls.write new_urls basedir) in
    return_ 0.

(** The first part of [build]: read the ledger, load the actions from
    [srcdir], the redirects and the resources. *)
Definition resolve (action_config : option (gmap string SourceClass))
    (basedir : Path) : M (gset UrlPath.t * list Action * Resources) :=
  let* old_urls := reading (Urls.read basedir) in
  let* source_actions := walk_and_load action_config (basedir ++ ["src"]) in
  let* redirects := reading (load_redirects basedir) in
  let* resources := reading (Resources.load basedir) in
  ret (old_urls, source_actions ++ redirects, resources).

(** The loop over the gathered results. *)
Definition report (results : list Result) : M unit :=
  for_each results
    (fun result =>
       let* _ := log (LogResult result) in
       for_each (warnings result) (fun w => log (LogWarning w))).

(** The entries [report] appends to the log. *)
Definition result_log (results : list Result) : list log_entry :=
  results ≫= (fun result => LogResult result :: (LogWarning <$> warnings result)).

(** Actually do the things, then check for forgotten URLs. *)
Definition execute_and_audit (old_urls : gset UrlPath.t)
    (actions : list Action) (resources : Resources)
    (url_actions : list (UrlPath.t * list string)) (basedir : Path)
  : M Empty_set :=
  let* results := gather actions (basedir ++ ["src"]) (basedir ++ ["build"])
                    resources in
  let* _ := report results in
  audit old_urls (list_to_set (fst <$> url_actions)) basedir.

(** [build(action_config=..., basedir=...)], for a given [basedir]
    (without one, [build] first asks [git] for the top level of the
    repository). *)
Definition build (action_config : option (gmap string SourceClass))
    (basedir : Path) : M Empty_set :=
  let* r := resolve action_config basedir in
  let '(old_urls, actions, resources) := r in
  let* url_actions :=
    reading (fun _ => gather_urls actions (basedir ++ ["src"]) []) in
  let* _ := check_conflicts url_actions in
  let* _ := clear_dest (basedir ++ ["build"]) in
  execute_and_audit old_urls actions resources url_actions basedir.

(** The identifiers of the actions that claim the URL [u]. *)
Definition claimants (actions : list Action) (srcdir : Path) (u : UrlPath.t)
  : list string :=
  str_action <$> filter (fun a => url a srcdir = Val u) actions.

(** What the dictionary [url_actions] holds once the loop has gone over
    the actions [done]: each claimed URL once, with its claimants. *)
Definition gathered (d : list (UrlPath.t * list string))
    (done : list Action) (srcdir : Path) : Prop :=
  NoDup d.*1
  ∧ (forall u names, (u, names) ∈ d ->
       names = claimants done srcdir u ∧ names ≠ [])
  ∧ (forall u, u ∈ d.*1 <-> exists a, a ∈ done ∧ url a srcdir = Val u).

End build.

(** * Concrete inputs used by the examples *)

Module Ex.

(** A base directory [/site] with nothing in it. *)
Definition fs_empty : FS := <[ ["site"] := Dir ]> ∅.

Definition base : Path := ["site"].

(** The set of the specification's round-trip example. *)
Definition urls_ab : gset UrlPath.t :=
  {[ UrlPath.mk "/b/c"; UrlPath.mk "/a" ]}.

(** One URL whose path holds a line feed. *)
Definition urls_lf : gset UrlPath.t :=
  {[ UrlPath.mk ("/a" +:+ nl +:+ "/b") ]}.

(** A ledger file with the right header and the URL [/a] on two lines. *)
Definition fs_dup : FS :=
  <[ ["site"; "urls.txt"] :=
       File (Urls.FILE_HEADER +:+ "/a" +:+ nl +:+ "/b" +:+ nl +:+ "/a" +:+ nl) ]>
    fs_empty.

End Ex.

(** A stand-in for the library functions, good enough to run the engine
    on small sites: the TOML reader understands documents made of bare
    [key=value] lines. *)
Module Toy.

Fixpoint split_eq (s : string) : option (string * string) :=
  match s with
  | "" => None
  | String c s' =>
      if Stdlib.Strings.Ascii.eqb c "="%char then Some ("", s')
      else match split_eq s' with
           | Some (k, v) => Some (String c k, v)
           | None => None
           end
  end.

Fixpoint table (ls : list string) : comp Meta :=
  match ls with
  | [] => Val []
  | l :: rest =>
      match split_eq (removesuffix l nl) with
      | Some kv => do t <- table rest; Val (kv :: t)
      | None => Exc (OtherException "TOMLDecodeError")
      end
  end.

Definition loads (s : string) : comp Meta := table (readlines s).

Definition format (e : exn) : string :=
  match e with
  | OtherException d => d +:+ nl
  | _ => "OSError" +:+ nl
  end.

Definition quote (s : string) : string := "'" +:+ s +:+ "'".

Definition externals (sched : forall A : Type, list A -> list A)
    (Hsched : forall A (l : list A), sched A l ≡ₚ l) : Externals := {|
  toml_loads := loads;
  toml_loads_empty := eq_refl;
  format_exception_only := format;
  repr_str := quote;
  repr_path := fun p => "PosixPath(" +:+ quote ("/" +:+ join "/" p) +:+ ")";
  repr_meta := fun _ => "{...}";
  SCSS := Copy;
  schedule := sched;
  schedule_perm := Hsched
|}.

(** Tasks run in the order of submission, or in the opposite order. *)
Definition fifo : Externals := externals (fun _ l => l) (fun _ l => reflexivity l).
Definition lifo : Externals :=
  externals (fun _ l => reverse l) (fun _ l => reverse_Permutation l).

End Toy.

Module Site.

Definition base : Path := ["site"].

(** A page processor that wraps the body, and one that always fails. *)
Definition wrap (_ : string) (_ : Meta) (contents : string) (_ : Resources)
  : comp string := Val ("<html>" +:+ contents).
Definition boom (_ : string) (_ : Meta) (_ : string) (_ : Resources)
  : comp string := Exc (OtherException "ValueError: boom").

(** The sources: [src/a.txt], [src/page.md], no redirect, one template. *)
Definition sources : FS :=
  <[ ["site"; "src"; "page.md"] := File ("title=T" +:+ nl +:+ "---" +:+ nl +:+ "body" +:+ nl) ]>
  (<[ ["site"; "src"; "a.txt"] := File "hello" ]>
  (<[ ["site"; "src"] := Dir ]>
  (<[ ["site"; "templates"; "base.html"] := File "<t>" ]>
  (<[ ["site"; "templates"] := Dir ]>
  (<[ ["site"; "redirects.toml"] := File "" ]>
  (<[ ["site"] := Dir ]> ∅)))))).

Definition redirects (text : string) (fs : FS) : FS :=
  <[ ["site"; "redirects.toml"] := File text ]> fs.

Definition config (f : string -> Meta -> string -> Resources -> comp string)
  : option (gmap string SourceClass) :=
  Some {[ ".md" := index_html_processor f ]}.

(** What [build] resolves the sources to. *)
Definition resources : Resources := {[ "base.html" := "<t>" ]}.

Definition copy_a : Action :=
  Source (mkSourceAction Copy ["site"; "src"; "a.txt"] [] "").

Definition page (f : string -> Meta -> string -> Resources -> comp string)
  : Action :=
  Source (mkSourceAction (index_html_processor f) ["site"; "src"; "page.md"]
            [("title", "T")] ("body" +:+ nl)).

End Site.

Module Page.

(** A page with a metadata block, one without a delimiter, and one
    whose last line is the delimiter without its line feed. *)
Definition with_block : string :=
  "title=T" +:+ nl +:+ "---" +:+ nl +:+ "body" +:+ nl +:+ "---" +:+ nl +:+ "more".
Definition no_block : string := "just" +:+ nl +:+ "text".
Definition unterminated : string := "title=T" +:+ nl +:+ "---".

Definition fs : FS :=
  <[ ["p1.md"] := File with_block ]>
  (<[ ["p2.md"] := File no_block ]>
  (<[ ["p3.md"] := File unterminated ]> ∅)).

Definition cls : SourceClass := index_html_processor Site.wrap.

End Page.

Module Conflict.

(** The site of [Site.sources] with two redirects, each for a URL that
    a source file already produces. *)
Definition fs : FS :=
  Site.redirects ("/a.txt=/bar" +:+ nl +:+ "/page/index.html=/x" +:+ nl)
    Site.sources.

Definition cfg := Site.config Site.wrap.

Definition actions : list Action :=
  [Site.copy_a; Site.page Site.wrap;
   Redirect "/a.txt" "/bar"; Redirect "/page/index.html" "/x"].

End Conflict.

Module Redir.

(** The redirect of the specification's example. *)
Definition foo : Action := Redirect "/foo/" "/bar".

(** A destination directory as [build] prepares it: the marker only. *)
Definition fresh : FS :=
  <[ ["site"; "build"; SITEBUILDER_DEST_MARKER_FILENAME] := File "" ]>
  (<[ ["site"; "build"] := Dir ]> Site.sources).

(** The site of [Site.sources] with that redirect declared. *)
Definition fs : FS := Site.redirects ("/foo/=/bar" +:+ nl) Site.sources.

End Redir.

Module Dest.

(** The sources with a destination directory that holds a file of the
    user and no marker. *)
Definition unmarked : FS :=
  <[ ["site"; "build"; "precious.txt"] := File "data" ]>
  (<[ ["site"; "build"] := Dir ]> Site.sources).

(** The same with the marker: a directory left by an earlier build. *)
Definition marked : FS :=
  <[ ["site"; "build"; SITEBUILDER_DEST_MARKER_FILENAME] := File "" ]> unmarked.

(** The sources with a file where the destination directory should be. *)
Definition not_a_directory : FS :=
  <[ ["site"; "build"] := File "data" ]> Site.sources.

Definition actions : list Action := [Site.copy_a; Site.page Site.wrap].

Definition cfg := Site.config Site.wrap.

End Dest.

Module Forgot.

(** The sources of [Site.sources] with a ledger that lists a URL, [/old],
    which nothing produces any more. *)
Definition fs : FS :=
  <[ ["site"; "urls.txt"] := File (Urls.FILE_HEADER +:+ "/old" +:+ nl) ]>
    Site.sources.

Definition cfg := Site.config Site.wrap.

End Forgot.
(** * Properties *)

(** ** Strings and lines *)

Section strings.

Implicit Types s t : string.

Lemma string_app_cons c s t : String c s +:+ t = String c (s +:+ t).
Proof. reflexivity. Qed.

Lemma string_app_nil_l s : "" +:+ s = s.
Proof. reflexivity. Qed.

Lemma string_app_nil_r s : s +:+ "" = s.
Proof. induction s as [|c s IH]; [done|]. by rewrite string_app_cons, IH. Qed.

Lemma string_app_assoc s t u : (s +:+ t) +:+ u = s +:+ t +:+ u.
Proof.
  induction s as [|c s IH]; [done|]. by rewrite !string_app_cons, IH.
Qed.

Lemma string_app_nl_not_nil s t : s +:+ String LF t <> "".
Proof. destruct s; discriminate. Qed.

Lemma join0_cons s l : join0 (s :: l) = s +:+ join0 l.
Proof.
  unfold join0. destruct l as [|t l]; simpl.
  - by rewrite string_app_nil_r.
  - done.
Qed.

Lemma join0_app l1 l2 : join0 (l1 ++ l2) = join0 l1 +:+ join0 l2.
Proof.
  induction l1 as [|s l1 IH]; [done|].
  rewrite <- app_comm_cons, !join0_cons, IH. by rewrite string_app_assoc.
Qed.

Lemma contains_app s t c :
  contains (s +:+ t) c = contains s c || contains t c.
Proof.
  induction s as [|a s IH]; [done|].
  rewrite string_app_cons. simpl. rewrite IH.
  by destruct (Stdlib.Strings.Ascii.eqb a c).
Qed.

(** Joining the lines gives the text back. *)
Lemma join0_readlines s : join0 (readlines s) = s.
Proof.
  induction s as [|c s IH]; [done|]. simpl.
  destruct (Stdlib.Strings.Ascii.eqb_spec c LF) as [->|].
  - rewrite join0_cons, IH. done.
  - destruct (readlines s) as [|l ls].
    + simpl in *. by subst.
    + rewrite join0_cons in *. by rewrite string_app_cons, IH.
Qed.

(** A text that starts with a line [s] ending in a line feed. *)
Lemma readlines_line s t :
  contains s LF = false ->
  readlines (s +:+ nl +:+ t) = (s +:+ nl) :: readlines t.
Proof.
  induction s as [|c s IH]; intros Hs.
  - done.
  - rewrite !string_app_cons. simpl in *.
    destruct (Stdlib.Strings.Ascii.eqb c LF); [done|].
    by rewrite IH.
Qed.

(** A text without line feed is a single line. *)
Lemma readlines_last s :
  contains s LF = false -> s <> "" -> readlines s = [s].
Proof.
  induction s as [|c s IH]; intros Hs Hne; [done|]. simpl in *.
  destruct (Stdlib.Strings.Ascii.eqb c LF); [done|].
  destruct s as [|c' s]; [done|].
  by rewrite IH.
Qed.

Lemma readlines_terminated (ls : list string) :
  Forall (fun s => contains s LF = false) ls ->
  readlines (join0 ((fun s => s +:+ nl) <$> ls)) = (fun s => s +:+ nl) <$> ls.
Proof.
  induction 1 as [|s ls Hs _ IH]; [done|].
  rewrite fmap_cons, join0_cons, string_app_assoc, readlines_line, IH; done.
Qed.

Lemma removesuffix_app_nl s : removesuffix (s +:+ nl) nl = s.
Proof.
  induction s as [|c s IH]; [done|].
  rewrite string_app_cons. cbn [removesuffix]. rewrite IH.
  destruct (String.eqb_spec (String c (s +:+ nl)) nl) as [Heq|]; [|done].
  exfalso. injection Heq as _ Heq. by apply string_app_nl_not_nil in Heq.
Qed.

Lemma removesuffix_no_nl s : contains s LF = false -> removesuffix s nl = s.
Proof.
  induction s as [|c s IH]; [done|]. intros Hs.
  cbn [removesuffix]. simpl in Hs.
  destruct (Stdlib.Strings.Ascii.eqb_spec c LF) as [|Hc]; [done|].
  rewrite IH by done.
  destruct (String.eqb_spec (String c s) nl) as [Heq|]; [|done].
  injection Heq as -> _. done.
Qed.

Lemma universal_newlines_id s :
  contains s CR = false -> universal_newlines s = s.
Proof.
  induction s as [|c s IH]; [done|]. simpl.
  destruct (Stdlib.Strings.Ascii.eqb c CR); [done|].
  intros ?. by rewrite IH.
Qed.

End strings.

(** ** The ledger: [Urls.read] and [Urls.write] *)

Section ledger.

Implicit Types (urls acc : gset UrlPath.t) (ls us : list string).

Global Instance UrlPath_le_trans : Transitive UrlPath.le.
Proof. intros u v w. unfold UrlPath.le. apply transitivity. Qed.

Global Instance UrlPath_le_total : Total UrlPath.le.
Proof. intros u v. unfold UrlPath.le. apply String.le_total. Qed.

Global Instance UrlPath_le_antisym : AntiSymm (=) UrlPath.le.
Proof.
  intros [s] [t] H1 H2. unfold UrlPath.le in *. simpl in *.
  f_equal. by apply (anti_symm String.le).
Qed.

Lemma UrlPath_mk_path (l : list UrlPath.t) :
  UrlPath.mk <$> (UrlPath.path <$> l) = l.
Proof. induction l as [|[s] l IH]; [done|]. by rewrite !fmap_cons, IH. Qed.

Lemma sorted_Permutation urls : UrlPath.sorted urls ≡ₚ elements urls.
Proof. apply merge_sort_Permutation. Qed.

Lemma sorted_StronglySorted urls :
  StronglySorted UrlPath.le (UrlPath.sorted urls).
Proof. apply (StronglySorted_merge_sort _). Qed.

(** [sorted] does not depend on the order in which the set is iterated. *)
Lemma sorted_any_order urls (l : list UrlPath.t) :
  NoDup l -> (forall u, u ∈ l <-> u ∈ urls) ->
  merge_sort UrlPath.le l = UrlPath.sorted urls.
Proof.
  intros Hnd Hl. apply (StronglySorted_unique UrlPath.le).
  - apply (StronglySorted_merge_sort _).
  - apply sorted_StronglySorted.
  - rewrite merge_sort_Permutation, sorted_Permutation.
    apply NoDup_Permutation; [done|apply NoDup_elements|].
    intros u. rewrite Hl. by rewrite elem_of_elements.
Qed.

(** The loop of [read] accepts exactly the lists of distinct absolute
    paths that are new to the accumulator. *)
Lemma read_lines_Val ls acc :
  let us := (fun l => removesuffix l nl) <$> ls in
  Forall (fun u => startswith u "/" = true) us ->
  NoDup us ->
  (forall u, u ∈ us -> UrlPath.mk u ∉ acc) ->
  Urls.read_lines ls acc = Val (list_to_set (UrlPath.mk <$> us) ∪ acc).
Proof.
  simpl. revert acc. induction ls as [|l ls IH]; intros acc Habs Hnd Hacc.
  - simpl. f_equal. set_solver.
  - rewrite fmap_cons in *. apply Forall_cons in Habs as [Hl Habs].
    apply NoDup_cons in Hnd as [Hnotin Hnd].
    cbn [Urls.read_lines]. unfold UrlPath.new. rewrite Hl. cbn [comp_bind].
    rewrite decide_False by (apply Hacc; left).
    rewrite IH; [f_equal; set_solver|done..|].
    intros u Hu. rewrite elem_of_union, elem_of_singleton.
    intros [[= ->]|?]; [done|]. eapply Hacc; [by right|done].
Qed.

(** The loop raises as soon as a path comes a second time. *)
Lemma read_lines_dup ls acc :
  let us := (fun l => removesuffix l nl) <$> ls in
  ¬ NoDup us ∨ (exists u, u ∈ us ∧ UrlPath.mk u ∈ acc) ->
  exists e, Urls.read_lines ls acc = Exc e ∧
    (Forall (fun u => startswith u "/" = true) us ->
     exists u, e = RuntimeError_duplicate_url u ∧ u ∈ us).
Proof.
  simpl. revert acc. induction ls as [|l ls IH]; intros acc Hdup.
  - exfalso. destruct Hdup as [Hnd|(u & Hu & _)].
    + apply Hnd. constructor.
    + by apply elem_of_nil in Hu.
  - rewrite fmap_cons in *. cbn [Urls.read_lines]. unfold UrlPath.new.
    destruct (startswith (removesuffix l nl) "/") eqn:Hl; cbn [comp_bind].
    2:{ eexists; split; [done|]. intros [Hl' _]%Forall_cons. congruence. }
    case_decide as Hin.
    { eexists; split; [done|]. intros _. eexists; split; [done|]. left. }
    destruct (IH ({[UrlPath.mk (removesuffix l nl)]} ∪ acc))
      as (e & He & Hdupurl).
    { destruct (decide (removesuffix l nl ∈ (fun l => removesuffix l nl) <$> ls))
        as [Hin'|Hnotin].
      - right. exists (removesuffix l nl). split; [done|]. set_solver.
      - destruct Hdup as [Hnd|(u & Hu & Hacc)].
        + left. intros Hnd'. apply Hnd. by constructor.
        + right. apply elem_of_cons in Hu as [->|Hu]; [done|].
          exists u. split; [done|]. set_solver. }
    exists e. split; [done|]. intros [_ Habs]%Forall_cons.
    destruct (Hdupurl Habs) as (u & -> & Hu). exists u. split; [done|].
    by right.
Qed.

Lemma node_at_ledger (fs : FS) basedir :
  node_at fs (Urls.path basedir) = fs !! Urls.path basedir.
Proof. unfold Urls.path. by destruct basedir. Qed.

End ledger.

(** ** The file system *)

Section fs.

Implicit Types (fs : FS) (p q : Path) (n : node).

Lemma parent_snoc p c : parent (p ++ [c]) = p.
Proof. apply removelast_last. Qed.

Lemma parent_prefix p : parent p `prefix_of` p.
Proof.
  destruct p as [|c p] using rev_ind; [done|].
  rewrite parent_snoc. by apply prefix_app_r.
Qed.

Lemma parent_ne p : p ≠ [] -> parent p ≠ p.
Proof.
  destruct p as [|c p _] using rev_ind; [done|]. intros _.
  rewrite parent_snoc. intros Heq.
  apply (f_equal length) in Heq. rewrite length_app in Heq. simpl in Heq. lia.
Qed.

(** A proper prefix of [p] is a prefix of its parent. *)
Lemma prefix_parent q p : q `prefix_of` p -> q ≠ p -> q `prefix_of` parent p.
Proof.
  destruct p as [|c p _] using rev_ind.
  - intros ->%prefix_nil_inv. done.
  - rewrite parent_snoc. intros [k Hk] Hne.
    destruct k as [|d k _] using rev_ind.
    + rewrite (right_id_L [] (++)) in Hk. congruence.
    + rewrite (assoc_L (++)) in Hk. apply app_inj_tail in Hk as [-> _].
      by apply prefix_app_r.
Qed.

Lemma node_at_ne fs p : p ≠ [] -> node_at fs p = fs !! p.
Proof. by destruct p. Qed.

Lemma node_at_insert fs p q n :
  p ≠ [] ->
  node_at (<[p := n]> fs) q = if decide (p = q) then Some n else node_at fs q.
Proof.
  intros Hp. destruct q as [|c q].
  - by rewrite decide_False.
  - cbn [node_at]. by rewrite lookup_insert.
Qed.

Lemma is_dir_insert_dir fs p q :
  p ≠ [] -> is_dir fs q = true -> is_dir (<[p := Dir]> fs) q = true.
Proof.
  intros Hp. unfold is_dir. rewrite node_at_insert by done.
  by case_decide.
Qed.

Lemma is_dir_insert_ne fs p q n :
  p ≠ [] -> p ≠ q -> is_dir (<[p := n]> fs) q = is_dir fs q.
Proof.
  intros Hp Hpq. unfold is_dir. rewrite node_at_insert by done.
  by rewrite decide_False.
Qed.

Lemma wf_lookup fs p n :
  wf fs -> fs !! p = Some n -> p ≠ [] ∧ is_dir fs (parent p) = true.
Proof. intros Hwf Hp. exact (Hwf p n Hp). Qed.

Lemma wf_root fs : wf fs -> fs !! [] = None.
Proof.
  intros Hwf. destruct (fs !! []) as [n|] eqn:Hroot; [|done].
  by destruct (wf_lookup _ _ _ Hwf Hroot).
Qed.

Lemma wf_node_at fs p : wf fs -> fs !! p = node_at fs p ∨ p = [].
Proof. intros _. destruct p; [by right|by left]. Qed.

(** In a well-formed file system the ancestors of an entry are
    directories. *)
Lemma wf_ancestors fs p q :
  wf fs -> is_Some (node_at fs p) -> q `prefix_of` p -> q ≠ p ->
  is_dir fs q = true.
Proof.
  intros Hwf. revert q.
  induction p as [|c p IH] using rev_ind; intros q Hp Hq Hne.
  - apply prefix_nil_inv in Hq. done.
  - assert (is_dir fs p = true) as Hdir.
    { destruct Hp as [n Hp]. rewrite node_at_ne in Hp by by destruct p.
      destruct (wf_lookup _ _ _ Hwf Hp) as [_ Hpar].
      by rewrite parent_snoc in Hpar. }
    apply prefix_parent in Hq; [|done]. rewrite parent_snoc in Hq.
    destruct (decide (q = p)) as [->|Hqp]; [done|].
    apply IH; [|done..].
    unfold is_dir in Hdir. destruct (node_at fs p); [by eexists|done].
Qed.

Lemma wf_insert_dir fs p :
  wf fs -> p ≠ [] -> is_dir fs (parent p) = true -> wf (<[p := Dir]> fs).
Proof.
  intros Hwf Hp Hpar q n Hq.
  apply lookup_insert_Some in Hq as [[<- <-]|[Hne Hq]].
  - split; [done|]. by apply is_dir_insert_dir.
  - destruct (wf_lookup _ _ _ Hwf Hq) as [Hq0 Hqpar].
    split; [done|]. by apply is_dir_insert_dir.
Qed.

Lemma wf_insert_file fs p s :
  wf fs -> p ≠ [] -> is_dir fs (parent p) = true -> is_dir fs p = false ->
  wf (<[p := File s]> fs).
Proof.
  intros Hwf Hp Hpar Hnotdir q n Hq.
  apply lookup_insert_Some in Hq as [[<- <-]|[Hne Hq]].
  - split; [done|]. rewrite is_dir_insert_ne; [done..|].
    intros Heq. by apply (parent_ne p).
  - destruct (wf_lookup _ _ _ Hwf Hq) as [Hq0 Hqpar].
    split; [done|]. rewrite is_dir_insert_ne; [done..|].
    intros ->. congruence.
Qed.

Lemma rmtree_lookup fs p q :
  rmtree fs p !! q = if decide (p `prefix_of` q) then None else fs !! q.
Proof.
  unfold rmtree. case_decide as Hpre.
  - apply map_lookup_filter_None. right. intros n _ Hnot. by apply Hnot.
  - destruct (fs !! q) as [n|] eqn:Hq.
    + apply map_lookup_filter_Some. done.
    + apply map_lookup_filter_None. by left.
Qed.

Lemma wf_rmtree fs p : wf fs -> wf (rmtree fs p).
Proof.
  intros Hwf q n Hq. rewrite rmtree_lookup in Hq.
  case_decide as Hpre; [done|].
  destruct (wf_lookup _ _ _ Hwf Hq) as [Hq0 Hpar]. split; [done|].
  unfold is_dir in *. destruct (parent q) as [|c r] eqn:Hparq; [done|].
  cbn [node_at] in *. rewrite rmtree_lookup. rewrite decide_False; [done|].
  intros Hpre'. apply Hpre. etrans; [done|]. rewrite <- Hparq.
  apply parent_prefix.
Qed.

(** What the successful calls do to the map. *)
Lemma mkdir_Val fs p fs' :
  mkdir fs p = Val fs' ->
  fs' = <[p := Dir]> fs ∧ node_at fs p = None ∧ is_dir fs (parent p) = true.
Proof.
  unfold mkdir, check_parent, is_dir.
  destruct (node_at fs p); [done|].
  destruct (node_at fs (parent p)) as [[]|]; [done| |done].
  by intros [= <-].
Qed.

Lemma write_file_Val fs p s fs' :
  write_file fs p s = Val fs' ->
  fs' = <[p := File s]> fs ∧ p ≠ [] ∧ is_dir fs p = false
  ∧ (is_dir fs (parent p) = true ∨ is_Some (fs !! p)).
Proof.
  unfold write_file, check_parent, is_dir.
  destruct p as [|c p]; [done|]. cbn [node_at].
  destruct (fs !! (c :: p)) as [[]|] eqn:Hp.
  - intros [= <-]. split; [done|]. split; [done|]. split; [done|].
    right. by eexists.
  - done.
  - destruct (node_at fs (parent (c :: p))) as [[]|]; [done| |done].
    intros [= <-]. by auto.
Qed.

Lemma touch_Val fs p fs' :
  touch fs p = Val fs' ->
  (is_Some (node_at fs p) ∧ fs' = fs)
  ∨ (node_at fs p = None ∧ is_dir fs (parent p) = true
     ∧ fs' = <[p := File ""]> fs).
Proof.
  unfold touch, check_parent, is_dir.
  destruct (node_at fs p) as [n|].
  - intros [= <-]. left. split; [by eexists|done].
  - destruct (node_at fs (parent p)) as [[]|]; [done| |done].
    intros [= <-]. by right.
Qed.

Lemma wf_write_file fs p s fs' :
  wf fs -> write_file fs p s = Val fs' -> wf fs'.
Proof.
  intros Hwf (-> & Hp & Hnotdir & [Hpar|[n Hn]])%write_file_Val.
  - by apply wf_insert_file.
  - apply wf_insert_file; [done..| |done].
    by destruct (wf_lookup _ _ _ Hwf Hn).
Qed.

End fs.

(** ** [mkdir(parents=True, exist_ok=True)] *)

Section mkdir_parents.

Implicit Types (fs : FS) (p q : Path) (rp : list string).

Lemma extends_towards_refl fs p : extends_towards fs fs p.
Proof. split; [done|]. intros q Hq Hq'. congruence. Qed.

Lemma extends_towards_insert fs p :
  fs !! p = None -> extends_towards fs (<[p := Dir]> fs) p.
Proof.
  intros Hp. split.
  - intros q n Hq. rewrite lookup_insert_ne; [done|]. congruence.
  - intros q Hq Hq'. destruct (decide (p = q)) as [->|Hne].
    + by rewrite lookup_insert_eq.
    + rewrite lookup_insert_ne in Hq' by done. done.
Qed.

Lemma extends_towards_trans fs1 fs2 fs3 q p :
  q `prefix_of` p ->
  extends_towards fs1 fs2 q -> extends_towards fs2 fs3 p ->
  extends_towards fs1 fs3 p.
Proof.
  intros Hqp [Hkeep12 Hnew12] [Hkeep23 Hnew23]. split.
  - intros r n Hr. by apply Hkeep23, Hkeep12.
  - intros r Hr Hr'. destruct (fs2 !! r) as [n|] eqn:Hr2.
    + destruct (Hnew12 r Hr) as [Hdir Hpre]; [congruence|].
      split; [|by etrans]. apply Hkeep23. congruence.
    + by apply Hnew23.
Qed.

Lemma mkdir_parents_go_Val fs rp fs' :
  wf fs ->
  mkdir_parents_go fs rp = Val fs' ->
  wf fs' ∧ is_dir fs' (rev rp) = true ∧ extends_towards fs fs' (rev rp).
Proof.
  revert fs fs'. induction rp as [|c rp IH]; intros fs fs' Hwf.
  - intros [= <-]. split; [done|]. split; [done|]. apply extends_towards_refl.
  - cbn [mkdir_parents_go]. set (p := rev (c :: rp)).
    assert (p ≠ []) as Hp.
    { unfold p. cbn [rev]. by destruct (rev rp). }
    assert (parent p = rev rp) as Hparent.
    { unfold p. cbn [rev]. apply parent_snoc. }
    assert (forall fs0 fs1, wf fs0 -> mkdir fs0 p = Val fs1 ->
              wf fs1 ∧ is_dir fs1 p = true ∧ extends_towards fs0 fs1 p)
      as Hmkdir.
    { intros fs0 fs1 Hwf0 (-> & Hnone & Hpar)%mkdir_Val.
      split; [by apply wf_insert_dir|]. split.
      - unfold is_dir. rewrite node_at_insert by done. by rewrite decide_True.
      - apply extends_towards_insert. by rewrite <- node_at_ne. }
    destruct (mkdir fs p) as [fs1|e] eqn:Hfirst.
    { intros [= <-]. by apply Hmkdir. }
    assert (forall fs0, wf fs0 ->
              (if is_dir fs0 p then Val fs0 else Exc e) = Val fs' ->
              wf fs' ∧ is_dir fs' p = true ∧ extends_towards fs0 fs' p)
      as Hforgive.
    { intros fs0 Hwf0. destruct (is_dir fs0 p) eqn:Hdir; [|done].
      intros [= <-]. split; [done|]. split; [done|].
      apply extends_towards_refl. }
    destruct e; try by apply Hforgive.
    destruct (mkdir_parents_go fs rp) as [fs1|] eqn:Hrec; [|done].
    cbn [comp_bind]. destruct (IH _ _ Hwf Hrec) as (Hwf1 & Hdir1 & Hext1).
    assert (rev rp `prefix_of` p) as Hpre.
    { rewrite <- Hparent. apply parent_prefix. }
    destruct (mkdir fs1 p) as [fs2|e2] eqn:Hsecond.
    + intros [= <-]. destruct (Hmkdir _ _ Hwf1 Hsecond) as (? & ? & ?).
      split; [done|]. split; [done|]. by eapply extends_towards_trans.
    + destruct (is_dir fs1 p) eqn:Hdir; [|done]. intros [= <-].
      split; [done|]. split; [done|].
      eapply extends_towards_trans; [done..|apply extends_towards_refl].
Qed.

Lemma mkdir_parents_Val fs p fs' :
  wf fs ->
  mkdir_parents fs p = Val fs' ->
  wf fs' ∧ is_dir fs' p = true ∧ extends_towards fs fs' p.
Proof.
  intros Hwf Hmk. unfold mkdir_parents in Hmk.
  apply mkdir_parents_go_Val in Hmk; [|done].
  by rewrite rev_involutive in Hmk.
Qed.

Lemma missing_no_file fs p :
  (forall q, q `prefix_of` p -> is_file_at fs q = false) ->
  missing fs p = FileNotFoundError p.
Proof.
  intros Hnofile. unfold missing.
  destruct (existsb (is_file_at fs) (ancestors p)) eqn:Hex; [|done].
  apply existsb_exists in Hex as (q & Hq & Hfile).
  unfold ancestors in Hq. apply list_elem_of_In, list_elem_of_fmap in Hq as (k & -> & _).
  rewrite Hnofile in Hfile; [done|]. apply prefix_take.
Qed.

(** The directories can be created when no file is in the way. *)
Lemma mkdir_parents_go_ok fs rp :
  wf fs ->
  (forall q, q `prefix_of` rev rp -> is_file_at fs q = false) ->
  exists fs', mkdir_parents_go fs rp = Val fs'.
Proof.
  intros Hwf. induction rp as [|c rp IH]; intros Hnofile; [by eexists|].
  cbn [mkdir_parents_go]. set (p := rev (c :: rp)) in *.
  assert (p ≠ []) as Hp.
  { unfold p. cbn [rev]. by destruct (rev rp). }
  assert (parent p = rev rp) as Hparent.
  { unfold p. cbn [rev]. apply parent_snoc. }
  assert (is_file_at fs p = false) as Hpfile by by apply Hnofile.
  assert (is_file_at fs (parent p) = false) as Hparfile
      by apply Hnofile, parent_prefix.
  unfold is_file_at in Hpfile, Hparfile.
  unfold mkdir at 1. unfold check_parent, is_dir.
  destruct (node_at fs p) as [[]|] eqn:Hnode; [done|by eexists|].
  destruct (node_at fs (parent p)) as [[]|] eqn:Hparnode; [done|by eexists|].
  cbn [comp_bind]. rewrite missing_no_file by done.
  destruct IH as [fs1 Hrec].
  { intros q Hq. apply Hnofile. etrans; [done|].
    rewrite <- Hparent. apply parent_prefix. }
  rewrite Hrec. cbn [comp_bind].
  destruct (mkdir_parents_go_Val _ _ _ Hwf Hrec) as (Hwf1 & Hdir1 & Hkeep & Hnew).
  rewrite <- Hparent in Hdir1.
  unfold mkdir, check_parent. unfold is_dir in Hdir1.
  destruct (node_at fs1 p) as [n|] eqn:Hnode1.
  - cbn [comp_bind]. rewrite node_at_ne in Hnode, Hnode1 by done.
    destruct (Hnew p Hnode) as [Hdir _]; [congruence|].
    assert (n = Dir) as -> by congruence. by eexists.
  - destruct (node_at fs1 (parent p)) as [[]|]; [done| |done]. by eexists.
Qed.

Lemma mkdir_parents_ok fs p :
  wf fs ->
  (forall q, q `prefix_of` p -> is_file_at fs q = false) ->
  exists fs', mkdir_parents fs p = Val fs'.
Proof.
  intros Hwf Hnofile. apply mkdir_parents_go_ok; [done|].
  by rewrite rev_involutive.
Qed.

End mkdir_parents.

(** ** Claims about the ledger *)

Section ledger_claims.

Implicit Types (urls : gset UrlPath.t) (fs : FS) (basedir : Path).

Lemma url_lines_paths (l : list UrlPath.t) :
  (fun s => removesuffix s nl) <$> ((fun u => UrlPath.path u +:+ nl) <$> l)
  = UrlPath.path <$> l.
Proof.
  induction l as [|u l IH]; [done|].
  by rewrite !fmap_cons, IH, removesuffix_app_nl.
Qed.

Lemma contents_no_CR urls :
  (forall u, u ∈ urls -> UrlPath.line_safe u) ->
  contains (Urls.contents urls) CR = false.
Proof.
  intros Hsafe. unfold Urls.contents. rewrite contains_app.
  replace (contains Urls.FILE_HEADER CR) with false by done. simpl.
  assert (Forall UrlPath.line_safe (UrlPath.sorted urls)) as Hall.
  { apply Forall_forall. intros u Hu. apply Hsafe.
    rewrite sorted_Permutation in Hu. by apply elem_of_elements. }
  induction Hall as [|u l (_ & _ & Hu) _ IH]; [done|].
  rewrite fmap_cons, join0_cons, !contains_app, Hu, IH. done.
Qed.

Lemma readlines_contents urls :
  (forall u, u ∈ urls -> UrlPath.line_safe u) ->
  readlines (Urls.contents urls)
  = Urls.FILE_HEADER :: ((fun u => UrlPath.path u +:+ nl) <$> UrlPath.sorted urls).
Proof.
  intros Hsafe. unfold Urls.contents, Urls.FILE_HEADER.
  rewrite string_app_assoc, readlines_line by done. f_equal.
  rewrite (list_fmap_compose UrlPath.path (fun s => s +:+ nl)).
  rewrite readlines_terminated; [done|].
  apply Forall_fmap, Forall_forall. intros u Hu. apply Hsafe.
  rewrite sorted_Permutation in Hu. by apply elem_of_elements.
Qed.

(** C5 (as amended).  Ledger round trip: for every set of URL paths
    none of which contains a line feed or a carriage return, writing the
    ledger and reading it back yields exactly that set.  The file holds
    the header followed by one path per line, the lines sorted; and the
    sorted list is the same whatever the order in which the set is
    iterated. *)
Theorem ledger_round_trip urls basedir fs fs' :
  (forall u, u ∈ urls -> UrlPath.line_safe u) ->
  Urls.write urls basedir fs = Val fs' ->
  Urls.read basedir fs' = Val urls
  ∧ (exists lines,
        fs' !! Urls.path basedir
        = Some (File (Urls.FILE_HEADER +:+
                      join0 ((fun u => UrlPath.path u +:+ nl) <$> lines)))
        ∧ StronglySorted UrlPath.le lines
        ∧ lines ≡ₚ elements urls)
  ∧ (forall l : list UrlPath.t,
        NoDup l -> (forall u, u ∈ l <-> u ∈ urls) ->
        merge_sort UrlPath.le l = UrlPath.sorted urls).
Proof.
  intros Hsafe Hwrite.
  assert (fs' !! Urls.path basedir = Some (File (Urls.contents urls)))
    as Hfile.
  { unfold Urls.write in Hwrite.
    destruct (match read_text fs (Urls.path basedir) with
              | Val _ => _ | Exc _ => _ end); [|done].
    cbn [comp_bind] in Hwrite. unfold write_file in Hwrite.
    destruct (node_at fs (Urls.path basedir)) as [[]|];
      [| done |destruct (check_parent _ _); [|done]];
      injection Hwrite as <-; apply lookup_insert_eq. }
  split; [|split].
  - unfold Urls.read, read_text, read_bytes.
    rewrite node_at_ledger, Hfile. cbn [comp_bind].
    rewrite universal_newlines_id by by apply contents_no_CR.
    rewrite readlines_contents by done.
    rewrite decide_True by done.
    rewrite read_lines_Val.
    + f_equal. rewrite url_lines_paths.
      rewrite UrlPath_mk_path, sorted_Permutation.
      rewrite list_to_set_elements_L. set_solver.
    + rewrite url_lines_paths.
      apply Forall_fmap, Forall_forall. intros u Hu. simpl. apply Hsafe.
      rewrite sorted_Permutation in Hu. by apply elem_of_elements.
    + rewrite url_lines_paths.
      apply (NoDup_fmap_2_strong UrlPath.path).
      * intros [s] [t] _ _. simpl. congruence.
      * rewrite sorted_Permutation. apply NoDup_elements.
    + set_solver.
  - exists (UrlPath.sorted urls).
    split; [done|]. split; [apply sorted_StronglySorted|apply sorted_Permutation].
  - intros l. apply sorted_any_order.
Qed.

(** C9.  Reading a ledger file that has the right header and in which
    the same URL path stands on more than one line raises: [read] never
    returns a set for it.  When all lines hold absolute paths, the
    exception is the [RuntimeError] for a duplicate URL. *)
Theorem read_duplicate_raises basedir fs raw rest :
  fs !! Urls.path basedir = Some (File raw) ->
  readlines (universal_newlines raw) = Urls.FILE_HEADER :: rest ->
  ¬ NoDup ((fun l => removesuffix l nl) <$> rest) ->
  exists e, Urls.read basedir fs = Exc e ∧
    (Forall (fun l => startswith (removesuffix l nl) "/" = true) rest ->
     exists u, e = RuntimeError_duplicate_url u).
Proof.
  intros Hfile Hlines Hdup.
  unfold Urls.read, read_text, read_bytes.
  rewrite node_at_ledger, Hfile. cbn [comp_bind].
  rewrite Hlines, decide_True by done.
  destruct (read_lines_dup rest ∅) as (e & -> & He); [by left|].
  exists e. split; [done|]. intros Habs.
  destruct He as (u & -> & _); [by apply Forall_fmap|]. by exists u.
Qed.

End ledger_claims.

(** The round trip on the set of the specification, [{"/a", "/b/c"}]. *)
Lemma ledger_round_trip_witness :
  (forall u, u ∈ Ex.urls_ab -> UrlPath.line_safe u)
  ∧ (exists fs', Urls.write Ex.urls_ab Ex.base Ex.fs_empty = Val fs'
                 ∧ Urls.read Ex.base fs' = Val Ex.urls_ab).
Proof.
  assert (forall u, u ∈ Ex.urls_ab -> UrlPath.line_safe u) as Hsafe.
  { intros u. unfold Ex.urls_ab. rewrite elem_of_union, !elem_of_singleton.
    intros [->| ->]; by vm_compute. }
  split; [done|].
  assert (is_Val (Urls.write Ex.urls_ab Ex.base Ex.fs_empty) = true) as Hval
      by by vm_compute.
  destruct (Urls.write Ex.urls_ab Ex.base Ex.fs_empty) as [fs'|] eqn:Hw;
    [|done].
  exists fs'. split; [done|].
  exact (proj1 (ledger_round_trip Ex.urls_ab Ex.base Ex.fs_empty fs' Hsafe Hw)).
Defined.

(** C5 as stated fails: a URL path may hold a line feed, and then the
    file read back is a different set. *)
Lemma ledger_round_trip_counterexample :
  ¬ (forall urls basedir fs fs',
        (forall u, u ∈ urls -> UrlPath.new (UrlPath.path u) = Val u) ->
        Urls.write urls basedir fs = Val fs' ->
        Urls.read basedir fs' = Val urls).
Proof.
  intros H.
  assert (is_Val (Urls.write Ex.urls_lf Ex.base Ex.fs_empty) = true) as Hok
      by by vm_compute.
  destruct (Urls.write Ex.urls_lf Ex.base Ex.fs_empty) as [fs'|] eqn:Hw;
    [|done].
  specialize (H Ex.urls_lf Ex.base Ex.fs_empty fs').
  assert (Urls.read Ex.base fs'
          = Val {[ UrlPath.mk "/b"; UrlPath.mk "/a" ]}) as Hread.
  { assert (fs' !! Urls.path Ex.base = Some (File (Urls.contents Ex.urls_lf)))
      as Hfile.
    { unfold Urls.write in Hw.
      destruct (match read_text Ex.fs_empty (Urls.path Ex.base) with
                | Val _ => _ | Exc _ => _ end); [|done].
      cbn [comp_bind] in Hw. apply write_file_Val in Hw as (-> & _).
      apply lookup_insert_eq. }
    unfold Urls.read, read_text, read_bytes.
    rewrite node_at_ledger, Hfile. by vm_compute. }
  rewrite Hread in H.
  assert (UrlPath.mk "/a" ∈ Ex.urls_lf) as Hin.
  { assert (Val ({[ UrlPath.mk "/b"; UrlPath.mk "/a" ]} : gset UrlPath.t)
            = Val Ex.urls_lf) as Hval.
    { apply H; [|done]. intros u ->%elem_of_singleton. by vm_compute. }
    assert (({[ UrlPath.mk "/b"; UrlPath.mk "/a" ]} : gset UrlPath.t)
            = Ex.urls_lf) as <- by congruence.
    set_solver. }
  unfold Ex.urls_lf in Hin. apply elem_of_singleton in Hin. discriminate.
Qed.

(** A ledger with [/a] on two lines. *)
Lemma read_duplicate_raises_witness :
  Urls.read Ex.base Ex.fs_dup = Exc (RuntimeError_duplicate_url "/a").
Proof.
  destruct (read_duplicate_raises Ex.base Ex.fs_dup
              (Urls.FILE_HEADER +:+ "/a" +:+ nl +:+ "/b" +:+ nl +:+ "/a" +:+ nl)
              ["/a" +:+ nl; "/b" +:+ nl; "/a" +:+ nl])
    as (e & He & _).
  - apply lookup_insert_eq.
  - by vm_compute.
  - vm_compute. intros Hnd. inversion Hnd as [|? ? Hnotin _]; subst.
    apply Hnotin. right. left.
  - rewrite He. f_equal.
    unfold Urls.read, read_text, read_bytes in He.
    rewrite node_at_ledger in He. unfold Ex.fs_dup in He.
    rewrite lookup_insert_eq in He. vm_compute in He. by injection He as <-.
Defined.

(** ** The metadata block: [WithMeta.__post_init__] *)

Section with_meta.

Context `{Externals}.

Implicit Types (ls before after acc : list string) (text : string).

(** Up to the first delimiter line the loop collects metadata lines. *)
Lemma split_meta_delimiter before after acc :
  META_DELIMITER ∉ before ->
  split_meta (before ++ META_DELIMITER :: after) acc = (acc ++ before, after).
Proof.
  revert acc. induction before as [|l before IH]; intros acc Hnotin.
  - cbn [split_meta app]. rewrite decide_True by done. by rewrite (right_id_L [] (++)).
  - apply not_elem_of_cons in Hnotin as [Hl Hnotin].
    cbn [split_meta app]. rewrite decide_False by done.
    rewrite IH by done. by rewrite <- (assoc_L (++)).
Qed.

(** Without a delimiter line the [else] branch of the loop makes all
    lines content. *)
Lemma split_meta_no_delimiter ls acc :
  META_DELIMITER ∉ ls -> split_meta ls acc = ([], acc ++ ls).
Proof.
  revert acc. induction ls as [|l ls IH]; intros acc Hnotin.
  - cbn [split_meta]. by rewrite (right_id_L [] (++)).
  - apply not_elem_of_cons in Hnotin as [Hl Hnotin].
    cbn [split_meta]. rewrite decide_False by done.
    rewrite IH by done. by rewrite <- (assoc_L (++)).
Qed.

Lemma parse_with_meta_no_delimiter text :
  META_DELIMITER ∉ readlines text -> parse_with_meta text = Val ([], text).
Proof.
  intros Hnotin. unfold parse_with_meta.
  rewrite split_meta_no_delimiter by done. simpl.
  change (join0 []) with "". rewrite toml_loads_empty. simpl.
  by rewrite join0_readlines.
Qed.

(** C8.  For a source file parsed by a metadata-bearing action: the
    lines before the first delimiter line are the metadata block, which
    the TOML reader turns into the table [meta], and the lines after it
    are the body [contents]; when no line is the delimiter, the whole
    file is the body and the metadata is empty. *)
Theorem with_meta_parse (c : SourceClass) (source : Path) (fs : FS) text :
  with_meta c = true ->
  read_text fs source = Val text ->
  (forall before after,
      readlines text = before ++ META_DELIMITER :: after ->
      META_DELIMITER ∉ before ->
      construct c source fs
      = do meta <- toml_loads (join0 before);
        Val (mkSourceAction c source meta (join0 after)))
  ∧ (META_DELIMITER ∉ readlines text ->
     construct c source fs = Val (mkSourceAction c source [] text)).
Proof.
  intros Hc Htext. unfold construct. rewrite Hc, Htext. cbn [comp_bind].
  split.
  - intros before after Hlines Hnotin. unfold parse_with_meta.
    rewrite Hlines, split_meta_delimiter by done. simpl.
    by destruct (toml_loads (join0 before)).
  - intros Hnotin. by rewrite parse_with_meta_no_delimiter.
Qed.

(** C10.  The delimiter must be the line ["---\n"] exactly: when the
    last line of the file is ["---"] without a line feed and no line
    before it is the delimiter, the whole file, that line included, is
    the body and the metadata is empty. *)
Theorem unterminated_delimiter_is_contents (c : SourceClass) (source : Path)
    (fs : FS) text before :
  with_meta c = true ->
  read_text fs source = Val text ->
  readlines text = before ++ ["---"] ->
  META_DELIMITER ∉ before ->
  construct c source fs = Val (mkSourceAction c source [] text).
Proof.
  intros Hc Htext Hlines Hnotin.
  apply (with_meta_parse c source fs text Hc Htext).
  rewrite Hlines. intros [Hin|Hin]%elem_of_app; [done|].
  apply list_elem_of_singleton in Hin. discriminate.
Qed.

End with_meta.

(** The page [Page.with_block]: the block is [title=T], the body starts
    after the first delimiter and holds the second one. *)
Lemma with_meta_parse_witness :
  @construct Toy.fifo Page.cls ["p1.md"] Page.fs
  = Val (mkSourceAction Page.cls ["p1.md"] [("title", "T")]
           ("body" +:+ nl +:+ "---" +:+ nl +:+ "more"))
  ∧ @construct Toy.fifo Page.cls ["p2.md"] Page.fs
    = Val (mkSourceAction Page.cls ["p2.md"] [] Page.no_block).
Proof.
  split.
  - rewrite (proj1 (@with_meta_parse Toy.fifo Page.cls ["p1.md"] Page.fs
                      Page.with_block eq_refl eq_refl)
               ["title=T" +:+ nl] ["body" +:+ nl; "---" +:+ nl; "more"]).
    + reflexivity.
    + reflexivity.
    + intros Hin%list_elem_of_singleton. discriminate.
  - apply (proj2 (@with_meta_parse Toy.fifo Page.cls ["p2.md"] Page.fs
                    Page.no_block eq_refl eq_refl)).
    vm_compute. intros Hin. repeat (apply elem_of_cons in Hin as [Hin|Hin]; [discriminate|]).
    by apply elem_of_nil in Hin.
Defined.

(** The page [Page.unterminated]. *)
Lemma unterminated_delimiter_witness :
  @construct Toy.fifo Page.cls ["p3.md"] Page.fs
  = Val (mkSourceAction Page.cls ["p3.md"] [] ("title=T" +:+ nl +:+ "---")).
Proof.
  apply (@unterminated_delimiter_is_contents Toy.fifo Page.cls ["p3.md"] Page.fs
           Page.unterminated ["title=T" +:+ nl]).
  - reflexivity.
  - reflexivity.
  - reflexivity.
  - intros Hin%list_elem_of_singleton. discriminate.
Defined.

(** ** The statements of [build] *)

Section monad.

Context {A B : Type}.
Implicit Types (fs : FS) (l : list log_entry).

Lemma bind_Next (m : M A) (k : A -> M B) s a s' :
  m s = (Next a, s') -> bind m k s = k a s'.
Proof. unfold bind. by intros ->. Qed.


Lemma bind_Raise (m : M A) (k : A -> M B) s e s' :
  m s = (Raise e, s') -> bind m k s = (Raise e, s').
Proof. unfold bind. by intros ->. Qed.

Lemma reading_Val (f : FS -> comp A) fs l a :
  f fs = Val a -> reading f (fs, l) = (Next a, (fs, l)).
Proof. unfold reading. by intros ->. Qed.


End monad.

Section read_only.

Context {A B : Type}.

Lemma read_only_ret (a : A) : read_only (ret a).
Proof. intros fs l r fs' l'. unfold ret. congruence. Qed.

Lemma read_only_return_ c : read_only (@return_ A c).
Proof. intros fs l r fs' l'. unfold return_. congruence. Qed.

Lemma read_only_log e : read_only (log e).
Proof. intros fs l r fs' l'. unfold log. congruence. Qed.

Lemma read_only_reading (f : FS -> comp A) : read_only (reading f).
Proof.
  intros fs l r fs' l'. unfold reading. destruct (f fs); congruence.
Qed.

Lemma read_only_bind (m : M A) (k : A -> M B) :
  read_only m -> (forall a, read_only (k a)) -> read_only (bind m k).
Proof.
  intros Hm Hk fs l r fs' l'. unfold bind.
  destruct (m (fs, l)) as [[a|c|e] [fs1 l1]] eqn:Hmeq.
  - intros Hkeq. apply Hk in Hkeq as ->. by eapply Hm.
  - intros [= <- <- <-]. by eapply Hm.
  - intros [= <- <- <-]. by eapply Hm.
Qed.

End read_only.

Lemma for_each_log {A} (f : A -> log_entry) (xs : list A) fs l :
  for_each xs (fun x => log (f x)) (fs, l) = (Next tt, (fs, l ++ (f <$> xs))).
Proof.
  revert l. induction xs as [|x xs IH]; intros l.
  - simpl. unfold ret. by rewrite (right_id_L [] (++)).
  - cbn [for_each]. unfold bind at 1. cbn [log].
    rewrite IH, fmap_cons, <- (assoc_L (++)). done.
Qed.

(** ** Gathering the URLs and checking for conflicts *)

Section conflicts.

Context `{Externals}.

Implicit Types (d : list (UrlPath.t * list string)) (u v : UrlPath.t)
  (actions done : list Action) (srcdir : Path).

Lemma setdefault_append_keys d u s :
  (setdefault_append d u s).*1
  = if decide (u ∈ d.*1) then d.*1 else (d.*1) ++ [u].
Proof.
  induction d as [|[k vs] d IH]; [done|].
  cbn [setdefault_append]. destruct (decide (k = u)) as [->|Hne].
  - rewrite decide_True by (rewrite fmap_cons; left). done.
  - rewrite !fmap_cons, IH. cbn [fst].
    destruct (decide (u ∈ d.*1)) as [Hin|Hnotin].
    + rewrite decide_True by by right. done.
    + rewrite decide_False; [done|].
      intros [?|?]%elem_of_cons; congruence.
Qed.

Lemma setdefault_append_elem d u s v names :
  NoDup d.*1 ->
  (v, names) ∈ setdefault_append d u s ->
  (v ≠ u ∧ (v, names) ∈ d)
  ∨ (v = u ∧ ((exists old, (u, old) ∈ d ∧ names = old ++ [s])
              ∨ ((u ∉ d.*1) ∧ names = [s]))).
Proof.
  induction d as [|[k vs] d IH]; intros Hnd Hin.
  - cbn [setdefault_append] in Hin. apply list_elem_of_singleton in Hin.
    injection Hin as -> ->. right. split; [done|]. right.
    split; [apply not_elem_of_nil|done].
  - rewrite fmap_cons in Hnd. apply NoDup_cons in Hnd as [Hk Hnd].
    cbn [setdefault_append fst] in *.
    destruct (decide (k = u)) as [->|Hne].
    + apply elem_of_cons in Hin as [Hin|Hin].
      * injection Hin as -> ->. right. split; [done|]. left.
        exists vs. split; [left|done].
      * left. split; [|by right]. intros ->. apply Hk.
        apply list_elem_of_fmap. by exists (u, names).
    + apply elem_of_cons in Hin as [Hin|Hin].
      * injection Hin as -> ->. left. split; [done|left].
      * destruct (IH Hnd Hin) as [[Hv Hd]|[-> [(old & Hd & ->)|[Hnotin ->]]]].
        -- left. split; [done|by right].
        -- right. split; [done|]. left. exists old. split; [by right|done].
        -- right. split; [done|]. right. split; [|done].
           rewrite fmap_cons. intros [Heq|Hd]%elem_of_cons; [|done].
           simpl in Heq. congruence.
Qed.

Lemma claimants_none done srcdir u :
  (forall a, a ∈ done -> url a srcdir ≠ Val u) ->
  claimants done srcdir u = [].
Proof.
  unfold claimants. induction done as [|a done IH]; intros Hnone; [done|].
  rewrite filter_cons_False by (apply Hnone; left).
  apply IH. intros b Hb. apply Hnone. by right.
Qed.

Lemma claimants_snoc done srcdir a v :
  claimants (done ++ [a]) srcdir v
  = claimants done srcdir v
    ++ (if decide (url a srcdir = Val v) then [str_action a] else []).
Proof.
  unfold claimants. rewrite filter_app, fmap_app. f_equal.
  rewrite filter_cons, filter_nil. by case_decide.
Qed.

Lemma gather_urls_gathered actions done srcdir d url_actions :
  gathered d done srcdir ->
  gather_urls actions srcdir d = Val url_actions ->
  gathered url_actions (done ++ actions) srcdir.
Proof.
  revert done d. induction actions as [|a actions IH];
    intros done d Hd Hgather.
  - injection Hgather as <-. by rewrite (right_id_L [] (++)).
  - cbn [gather_urls] in Hgather.
    destruct (url a srcdir) as [u|] eqn:Hu; [|done].
    cbn [comp_bind] in Hgather.
    rewrite (cons_middle a), (assoc_L (++)).
    eapply IH; [|exact Hgather].
    destruct Hd as (Hnd & Hnames & Hcover). split; [|split].
    + rewrite setdefault_append_keys. case_decide; [done|].
      apply NoDup_app. split; [done|]. split; [|apply NoDup_singleton].
      intros v Hv ->%list_elem_of_singleton. done.
    + intros v names Hin. rewrite claimants_snoc.
      apply setdefault_append_elem in Hin
          as [[Hv Hin]|[-> [(old & Hin & ->)|[Hnotin ->]]]]; [| | |done].
      * destruct (Hnames _ _ Hin) as [-> Hne].
        rewrite decide_False by congruence.
        by rewrite (right_id_L [] (++)).
      * destruct (Hnames _ _ Hin) as [-> Hne].
        rewrite decide_True by done. split; [done|].
        by destruct (claimants done srcdir u).
      * rewrite decide_True by done. split; [|done].
        rewrite claimants_none; [done|].
        intros b Hb Hbu. apply Hnotin. apply Hcover. by exists b.
    + intros v. rewrite setdefault_append_keys. split.
      * intros Hv.
        assert ((v ∈ d.*1) ∨ v = u) as [Hvd| ->].
        { case_decide; [by left|].
          apply elem_of_app in Hv as [Hv|Hv]; [by left|].
          apply list_elem_of_singleton in Hv. by right. }
        -- apply Hcover in Hvd as (b & Hb & Hbv). exists b.
           split; [|done]. apply elem_of_app. by left.
        -- exists a. split; [|done]. apply elem_of_app. right. left.
      * intros (b & Hb & Hbv). apply elem_of_app in Hb as [Hb|Hb].
        -- assert (v ∈ d.*1) by (apply Hcover; by exists b).
           case_decide; [done|]. apply elem_of_app. by left.
        -- apply list_elem_of_singleton in Hb as ->.
           assert (v = u) as -> by congruence.
           case_decide; [done|]. apply elem_of_app. right. left.
Qed.

(** The check stops at the first URL that has several claimants. *)
Lemma check_conflicts_spec d fs l :
  (Forall (fun e => length e.2 ≤ 1) d
   ∧ check_conflicts d (fs, l) = (Next tt, (fs, l)))
  ∨ (exists before u names after,
        d = before ++ (u, names) :: after
        ∧ Forall (fun e => length e.2 ≤ 1) before
        ∧ 1 < length names
        ∧ check_conflicts d (fs, l)
          = (Return 1%Z, (fs, l ++ [LogMultipleActions u names]))).
Proof.
  induction d as [|[u names] d IH].
  - left. done.
  - cbn [check_conflicts]. case_decide as Hlen.
    + right. exists [], u, names, d. done.
    + destruct IH as [[Hall Hcheck]|(before & v & ns & after & -> & Hall & Hns & Hcheck)].
      * left. split; [|done]. constructor; [simpl; lia|done].
      * right. exists ((u, names) :: before), v, ns, after.
        split; [done|]. split; [|done].
        constructor; [simpl; lia|done].
Qed.


End conflicts.

Section conflict_claim.

Context `{Externals}.

Implicit Types (fs : FS) (l : list log_entry) (basedir : Path).

(** The first part of [build] only reads. *)
Lemma walk_and_load_reads cfg srcdir : read_only (walk_and_load cfg srcdir).
Proof.
  unfold walk_and_load. apply read_only_bind; [apply read_only_reading|].
  intros [[]|].
  - apply read_only_bind; [apply read_only_log|]. intros _. apply read_only_ret.
  - apply read_only_reading.
  - apply read_only_bind; [apply read_only_log|]. intros _. apply read_only_ret.
Qed.

Lemma resolve_reads cfg basedir : read_only (resolve cfg basedir).
Proof.
  unfold resolve.
  apply read_only_bind; [apply read_only_reading|intros ?].
  apply read_only_bind; [apply walk_and_load_reads|intros ?].
  apply read_only_bind; [apply read_only_reading|intros ?].
  apply read_only_bind; [apply read_only_reading|intros ?].
  apply read_only_ret.
Qed.

Lemma build_resolved cfg basedir s old_urls actions resources s' :
  resolve cfg basedir s = (Next (old_urls, actions, resources), s') ->
  build cfg basedir s
  = (let* url_actions :=
       reading (fun _ => gather_urls actions (basedir ++ ["src"]) []) in
     let* _ := check_conflicts url_actions in
     let* _ := clear_dest (basedir ++ ["build"]) in
     execute_and_audit old_urls actions resources url_actions basedir) s'.
Proof. intros Hres. unfold build. by rewrite (bind_Next _ _ _ _ _ Hres). Qed.

Lemma gather_urls_all actions srcdir url_actions :
  gather_urls actions srcdir [] = Val url_actions ->
  gathered url_actions actions srcdir.
Proof.
  intros Hgather.
  apply (gather_urls_gathered actions [] srcdir [] url_actions); [|done].
  split; [constructor|]. split.
  - intros u names Hin. by apply elem_of_nil in Hin.
  - intros u. split.
    + intros Hin. by apply elem_of_nil in Hin.
    + intros (a & Hin & _). by apply elem_of_nil in Hin.
Qed.


End conflict_claim.



(** ** Redirects *)

Section redirect.

Context `{Externals}.

(** A redirect publishes [old_url] as it is, when that is an absolute
    path; the constructor of [UrlPath] refuses anything else. *)
Lemma redirect_url (old_url new_url : string) (srcdir : Path) :
  url (Redirect old_url new_url) srcdir
  = if startswith old_url "/" then Val (UrlPath.mk old_url)
    else Exc (ValueError_path_must_be_absolute old_url).
Proof. reflexivity. Qed.

(** The page is written when the directory it goes into is there. *)
Lemma redirect_run_parent_exists (old_url new_url : string)
    (srcdir destdir : Path) (resources : Resources) (fs : FS) :
  let d := destdir ++ redirect_dest_relpath old_url in
  is_dir fs d = false ->
  is_dir fs (parent d) = true ->
  exists result,
    run (Redirect old_url new_url) srcdir destdir resources fs
    = (Val result, <[ d := File (redirect_page new_url) ]> fs)
    ∧ success result = true.
Proof.
  intros d Hd Hparent. cbn [run]. unfold run_redirect. fold d.
  unfold write_file, check_parent, is_dir in *.
  destruct (node_at fs d) as [[]|] eqn:Hnode; [|done|].
  - eexists. split; [done|done].
  - destruct (node_at fs (parent d)) as [[]|]; [done| |done].
    eexists. split; [done|done].
Qed.

End redirect.

(** C7, evaluated at the redirect of the specification's example,
    [old_url = "/foo/"], [new_url = "/bar"].  The redirect publishes
    [/foo/]; its destination is [foo/index.html]; but [Redirect.run] does
    not create the directory [foo], so in the destination directory as
    [build] prepares it the write raises [FileNotFoundError], no page is
    written, and [build] ends with that exception. *)
Theorem redirect_into_missing_directory :
  url Redir.foo ["site"; "src"] = Val (UrlPath.mk "/foo/")
  ∧ redirect_dest_relpath "/foo/" = ["foo"; "index.html"]
  ∧ @run Toy.fifo Redir.foo ["site"; "src"] ["site"; "build"] Site.resources
      Redir.fresh
    = (Exc (FileNotFoundError ["site"; "build"; "foo"; "index.html"]),
       Redir.fresh)
  ∧ (@build Toy.fifo (Site.config Site.wrap) Site.base (Redir.fs, [])).1
    = Raise (FileNotFoundError ["site"; "build"; "foo"; "index.html"])
  ∧ (@build Toy.fifo (Site.config Site.wrap) Site.base (Redir.fs, [])).2.1
      !! ["site"; "build"; "foo"; "index.html"] = None.
Proof. repeat split; by vm_compute. Qed.

(** ** What running an action does to the file system *)

Section run.

Context `{Externals}.

Implicit Types (fs : FS) (p q : Path) (a : Action) (srcdir destdir : Path)
  (resources : Resources).

(** Writing a file below [destdir]. *)
Lemma write_file_below fs destdir rel s fs' :
  wf fs -> is_dir fs destdir = true ->
  write_file fs (destdir ++ rel) s = Val fs' ->
  wf fs' ∧ is_dir fs' destdir = true
  ∧ fs' = <[destdir ++ rel := File s]> fs
  ∧ below destdir (destdir ++ rel).
Proof.
  intros Hwf Hdir Hwrite. pose proof (wf_write_file _ _ _ _ Hwf Hwrite) as Hwf'.
  apply write_file_Val in Hwrite as (-> & Hne & Hnotdir & _).
  assert (destdir ++ rel ≠ destdir) as Hneq by congruence.
  split; [done|]. split; [by rewrite is_dir_insert_ne|]. split; [done|].
  split; [by apply prefix_app_r|done].
Qed.

(** Creating the directories towards a path below [destdir]. *)
Lemma mkdir_parents_below fs destdir p fs' :
  wf fs -> is_dir fs destdir = true ->
  mkdir_parents fs p = Val fs' ->
  (p `prefix_of` destdir ∨ destdir `prefix_of` p) ->
  wf fs' ∧ is_dir fs' destdir = true
  ∧ (forall q, ¬ below destdir q -> fs' !! q = fs !! q)
  ∧ (forall q n, fs !! q = Some n -> fs' !! q = Some n)
  ∧ is_dir fs' p = true.
Proof.
  intros Hwf Hdir Hmk Hcmp.
  destruct (mkdir_parents_Val _ _ _ Hwf Hmk) as (Hwf' & Hp & Hkeep & Hnew).
  assert (forall q, fs !! q = None -> fs' !! q ≠ None -> below destdir q)
    as Hbelow.
  { intros q Hq Hq'. destruct (Hnew q Hq Hq') as [Hqdir Hqp].
    assert (q ≠ []) as Hq0.
    { intros ->. by rewrite (wf_root fs') in Hqdir. }
    assert (q `prefix_of` destdir ∨ destdir `prefix_of` q) as [Hqd|Hdq].
    { destruct Hcmp as [Hpd|Hdp].
      - left. by etrans.
      - by eapply prefix_weak_total. }
    - exfalso. destruct (decide (q = destdir)) as [->|Hne].
      + unfold is_dir in Hdir. rewrite node_at_ne, Hq in Hdir by done. done.
      + assert (is_dir fs q = true) as Hqdir0.
        { eapply (wf_ancestors fs destdir); [done| |done..].
          unfold is_dir in Hdir. destruct (node_at fs destdir); [by eexists|done]. }
        unfold is_dir in Hqdir0. rewrite node_at_ne, Hq in Hqdir0 by done. done.
    - split; [done|]. intros ->.
      unfold is_dir in Hdir. rewrite node_at_ne, Hq in Hdir by done. done. }
  split; [done|]. split; [|split; [|done]].
  - unfold is_dir in *. destruct destdir as [|c d]; [done|]. cbn [node_at] in *.
    destruct (fs !! (c :: d)) as [[]|] eqn:Hd; [done| |done].
    by rewrite (Hkeep _ _ Hd).
  - intros q Hq. destruct (fs !! q) as [n|] eqn:Hfs; [by apply Hkeep|].
    destruct (fs' !! q) eqn:Hfs'; [|done].
    exfalso. apply Hq, Hbelow; [done|]. congruence.
Qed.

(** An action only touches what lies below the destination directory. *)
Lemma run_footprint a srcdir destdir resources fs r fs' :
  wf fs -> is_dir fs destdir = true ->
  run a srcdir destdir resources fs = (r, fs') ->
  wf fs' ∧ is_dir fs' destdir = true
  ∧ (forall q, ¬ below destdir q -> fs' !! q = fs !! q).
Proof.
  intros Hwf Hdir. destruct a as [old_url new_url|a]; cbn [run].
  - unfold run_redirect.
    destruct (write_file fs _ _) as [fs1|e] eqn:Hwrite; intros [= <- <-]; [|done].
    destruct (write_file_below _ _ _ _ _ Hwf Hdir Hwrite) as (? & ? & -> & Hb).
    split; [done|]. split; [done|].
    intros q Hq. rewrite lookup_insert_ne; [done|]. by intros <-.
  - unfold run_source.
    destruct (relative_to _ _) as [src_relpath|]; [|by intros [= <- <-]].
    destruct (dest_path _ _) as [dest_relpath|]; [|by intros [= <- <-]].
    destruct (mkdir_parents fs _) as [fs1|] eqn:Hmk; [|by intros [= <- <-]].
    destruct (mkdir_parents_below _ destdir _ _ Hwf Hdir Hmk)
      as (Hwf1 & Hdir1 & Hsame1 & _).
    { destruct (decide (dest_relpath = [])) as [->|Hne].
      - left. rewrite (right_id_L [] (++)). apply parent_prefix.
      - right. destruct dest_relpath as [|c rel _] using rev_ind; [done|].
        rewrite (assoc_L (++)), parent_snoc. by apply prefix_app_r. }
    unfold run_inner.
    destruct (produce _ _ _ _ _ _) as [out|]; cbn [comp_bind];
      [|by intros [= <- <-]].
    destruct (write_file fs1 _ _) as [fs2|e] eqn:Hwrite; intros [= <- <-];
      [|done].
    destruct (write_file_below _ _ _ _ _ Hwf1 Hdir1 Hwrite) as (? & ? & -> & Hb).
    split; [done|]. split; [done|].
    intros q Hq. rewrite lookup_insert_ne; [by apply Hsame1|]. by intros <-.
Qed.

Lemma run_tasks_footprint tasks srcdir destdir resources fs done fs' :
  wf fs -> is_dir fs destdir = true ->
  run_tasks tasks srcdir destdir resources fs = (done, fs') ->
  wf fs' ∧ is_dir fs' destdir = true
  ∧ (forall q, ¬ below destdir q -> fs' !! q = fs !! q).
Proof.
  revert fs done. induction tasks as [|[i a] tasks IH]; intros fs done Hwf Hdir.
  - intros [= <- <-]. done.
  - cbn [run_tasks].
    destruct (run a srcdir destdir resources fs) as [r fs1] eqn:Hrun.
    destruct (run_tasks tasks srcdir destdir resources fs1) as [rs fs2] eqn:Hrest.
    intros [= <- <-].
    destruct (run_footprint _ _ _ _ _ _ _ Hwf Hdir Hrun) as (Hwf1 & Hdir1 & Hsame1).
    destruct (IH _ _ Hwf1 Hdir1 Hrest) as (Hwf2 & Hdir2 & Hsame2).
    split; [done|]. split; [done|].
    intros q Hq. by rewrite Hsame2, Hsame1.
Qed.

Lemma gather_footprint actions srcdir destdir resources fs l r fs' l' :
  wf fs -> is_dir fs destdir = true ->
  gather actions srcdir destdir resources (fs, l) = (r, (fs', l')) ->
  wf fs' ∧ is_dir fs' destdir = true ∧ l' = l
  ∧ (forall q, ¬ below destdir q -> fs' !! q = fs !! q).
Proof.
  intros Hwf Hdir. unfold gather.
  destruct (run_tasks _ _ _ _ _) as [done fs1] eqn:Hrun.
  destruct (run_tasks_footprint _ _ _ _ _ _ _ Hwf Hdir Hrun) as (? & ? & ?).
  destruct (first_exception done); intros [= <- <- <-]; done.
Qed.

End run.

(** ** Preparing the destination directory *)

Section clear_dest.

Implicit Types (fs : FS) (l : list log_entry) (destdir : Path).


Lemma clear_dest_not_a_directory fs l destdir :
  exists_ fs destdir = true ->
  is_dir fs destdir = false ->
  clear_dest destdir (fs, l)
  = (Raise (FileExistsError_dest_not_a_directory destdir), (fs, l)).
Proof.
  intros Hex Hdir. unfold clear_dest, bind, reading.
  by rewrite Hex, Hdir.
Qed.


(** Whenever [clear_dest] lets the build go on, the directory is there
    and the marker is in it. *)
Lemma clear_dest_Next fs l destdir fs1 l1 :
  wf fs ->
  clear_dest destdir (fs, l) = (Next tt, (fs1, l1)) ->
  wf fs1 ∧ l1 = l ∧ is_dir fs1 destdir = true
  ∧ exists_ fs1 (destdir ++ [SITEBUILDER_DEST_MARKER_FILENAME]) = true
  ∧ (forall q, ¬ destdir `prefix_of` q -> fs1 !! q = fs !! q).
Proof.
  intros Hwf. unfold clear_dest.
  set (marker := destdir ++ [SITEBUILDER_DEST_MARKER_FILENAME]).
  assert (forall fs0 : FS, wf fs0 ->
            (forall q, ¬ destdir `prefix_of` q -> fs0 !! q = fs !! q) ->
            (let* _ := writing (fun fs => mkdir fs destdir) in
             writing (fun fs => touch fs marker)) (fs0, l) = (Next tt, (fs1, l1)) ->
            wf fs1 ∧ l1 = l ∧ is_dir fs1 destdir = true
            ∧ exists_ fs1 marker = true
            ∧ (forall q, ¬ destdir `prefix_of` q -> fs1 !! q = fs !! q)) as Hrest.
  { intros fs0 Hwf0 Hsame0. unfold bind, writing.
    destruct (mkdir fs0 destdir) as [fs2|] eqn:Hmk; [|done].
    apply mkdir_Val in Hmk as (-> & Hnone & Hpar).
    assert (destdir ≠ []) as Hne by (by intros ->).
    assert (wf (<[destdir := Dir]> fs0)) as Hwf2 by by apply wf_insert_dir.
    assert (is_dir (<[destdir := Dir]> fs0) destdir = true) as Hdir2.
    { unfold is_dir. rewrite node_at_insert by done. by rewrite decide_True. }
    assert (marker ≠ destdir) as Hmd.
    { unfold marker. intros Heq. apply (f_equal length) in Heq.
      rewrite length_app in Heq. simpl in Heq. lia. }
    assert (marker ≠ []) as Hm0 by (unfold marker; by destruct destdir).
    destruct (touch _ marker) as [fs3|] eqn:Htouch; [|done].
    intros [= <- <-].
    apply touch_Val in Htouch as [[Hsome ->]|(Hmnone & Hmpar & ->)].
    - split; [done|]. split; [done|]. split; [done|]. split.
      + unfold exists_. by destruct Hsome as [n ->].
      + intros q Hq. rewrite lookup_insert_ne; [by apply Hsame0|].
        by intros <-.
    - split; [by apply wf_insert_file; [..|unfold is_dir; rewrite Hmnone]|].
      split; [done|]. split; [by rewrite is_dir_insert_ne|]. split.
      + unfold exists_. rewrite node_at_insert by done. by rewrite decide_True.
      + intros q Hq. rewrite !lookup_insert_ne; [by apply Hsame0|..].
        * by intros <-.
        * intros <-. apply Hq. by apply prefix_app_r. }
  unfold bind at 1. unfold reading at 1.
  destruct (exists_ fs destdir).
  - unfold bind at 1. unfold bind at 1. unfold reading at 1.
    destruct (is_dir fs destdir); [|done].
    unfold bind at 1. unfold reading at 1.
    destruct (exists_ fs marker); cbn [negb]; [|done].
    unfold writing at 1. apply Hrest; [by apply wf_rmtree|].
    intros q Hq. rewrite rmtree_lookup. by rewrite decide_False.
  - unfold bind at 1. unfold ret. by apply Hrest.
Qed.

End clear_dest.

Section destination_claim.

Context `{Externals}.

Implicit Types (fs : FS) (l : list log_entry) (basedir : Path).

Lemma check_conflicts_pass (url_actions : list (UrlPath.t * list string)) fs l :
  Forall (fun e => length e.2 ≤ 1) url_actions ->
  check_conflicts url_actions (fs, l) = (Next tt, (fs, l)).
Proof.
  intros Hall.
  destruct (check_conflicts_spec url_actions fs l)
    as [[_ Hcheck]|(before & u & names & after & -> & _ & Hlen & _)]; [done|].
  apply Forall_app in Hall as [_ Hall]. apply Forall_cons in Hall as [Hle _].
  simpl in Hle. lia.
Qed.

(** What [build] comes to once the actions are resolved and no URL has
    two claimants. *)
Lemma build_no_conflict cfg basedir s old_urls actions resources s' url_actions :
  resolve cfg basedir s = (Next (old_urls, actions, resources), s') ->
  gather_urls actions (basedir ++ ["src"]) [] = Val url_actions ->
  Forall (fun e => length e.2 ≤ 1) url_actions ->
  build cfg basedir s
  = (let* _ := clear_dest (basedir ++ ["build"]) in
     execute_and_audit old_urls actions resources url_actions basedir) s'.
Proof.
  intros Hres Hgather Hall. rewrite (build_resolved _ _ _ _ _ _ _ Hres).
  destruct s' as [fs l].
  rewrite (bind_Next _ _ _ url_actions (fs, l)) by by apply reading_Val.
  by rewrite (bind_Next _ _ _ tt (fs, l)) by by apply check_conflicts_pass.
Qed.


End destination_claim.


(** ** Reporting the results and auditing the URLs *)

Section audit.

Context `{Externals}.

Implicit Types (fs : FS) (l : list log_entry) (basedir : Path)
  (old_urls new_urls urls : gset UrlPath.t).

Lemma report_log (results : list Result) fs l :
  report results (fs, l) = (Next tt, (fs, l ++ result_log results)).
Proof.
  unfold report, result_log. revert l.
  induction results as [|r results IH]; intros l.
  - cbn. unfold ret. by rewrite (right_id_L [] (++)).
  - cbn [for_each]. unfold bind at 1. unfold bind at 1. cbn [log].
    rewrite for_each_log, IH. rewrite bind_cons.
    by rewrite <- !(assoc_L (++)).
Qed.

Lemma audit_forgotten old_urls new_urls basedir fs l :
  old_urls ∖ new_urls ≠ ∅ ->
  audit old_urls new_urls basedir (fs, l)
  = (Return 1%Z,
     (fs, l ++ (LogForgotten <$> UrlPath.sorted (old_urls ∖ new_urls)))).
Proof.
  intros Hforgotten. unfold audit. rewrite decide_True by done.
  unfold bind. by rewrite for_each_log.
Qed.

Lemma audit_written old_urls new_urls basedir fs l fs' :
  old_urls ∖ new_urls = ∅ ->
  Urls.write new_urls basedir fs = Val fs' ->
  audit old_urls new_urls basedir (fs, l) = (Return 0%Z, (fs', l)).
Proof.
  intros Hnone Hwrite. unfold audit. rewrite decide_False by by intros [].
  unfold bind, writing. by rewrite Hwrite.
Qed.

Lemma audit_write_raises old_urls new_urls basedir fs l e :
  old_urls ∖ new_urls = ∅ ->
  Urls.write new_urls basedir fs = Exc e ->
  audit old_urls new_urls basedir (fs, l) = (Raise e, (fs, l)).
Proof.
  intros Hnone Hwrite. unfold audit. rewrite decide_False by by intros [].
  unfold bind, writing. by rewrite Hwrite.
Qed.

Lemma read_ledger_ok basedir fs urls :
  Urls.read basedir fs = Val urls -> ledger_ok fs basedir.
Proof.
  unfold Urls.read, read_text, read_bytes, ledger_ok.
  rewrite node_at_ledger.
  destruct (fs !! Urls.path basedir) as [[raw|]|]; cbn [comp_bind].
  - intros Hread. right. exists raw. split; [done|]. unfold readline.
    destruct (readlines (universal_newlines raw)) as [|first rest]; [done|].
    by case_decide.
  - done.
  - intros Hread. left. split; [done|].
    destruct (missing fs (Urls.path basedir)) eqn:Hmissing; try done.
    unfold missing in *. by destruct (existsb _ _).
Qed.

(** [Urls.write] on a ledger that [Urls.read] accepts. *)
Lemma write_ledger_ok urls basedir fs :
  ledger_ok fs basedir ->
  is_dir fs basedir = true ->
  Urls.write urls basedir fs
  = Val (<[Urls.path basedir := File (Urls.contents urls)]> fs).
Proof.
  intros Hok Hdir. unfold Urls.write, read_text, read_bytes, write_file.
  rewrite !node_at_ledger.
  destruct Hok as [[Hnone Hmissing]|(raw & Hfile & Hheader)].
  - rewrite Hnone. cbn [comp_bind]. rewrite Hmissing. cbn [comp_bind].
    unfold check_parent, Urls.path. rewrite parent_snoc.
    unfold is_dir in Hdir. by destruct (node_at fs basedir) as [[]|].
  - rewrite Hfile. cbn [comp_bind]. by rewrite decide_True.
Qed.

End audit.

(** ** The whole of [build] *)

Section build_props.

Context `{Externals}.

Implicit Types (fs : FS) (l : list log_entry) (basedir : Path).

Lemma ledger_not_below basedir : ¬ (basedir ++ ["build"]) `prefix_of` Urls.path basedir.
Proof.
  unfold Urls.path. intros Hpre%prefix_app_inv.
  destruct Hpre as [k Hk]. discriminate.
Qed.

Lemma ancestor_not_below basedir q :
  q `prefix_of` basedir -> ¬ (basedir ++ ["build"]) `prefix_of` q.
Proof.
  intros Hq Hpre.
  assert (length (basedir ++ ["build"]) ≤ length basedir) as Hlen.
  { etrans; by apply prefix_length. }
  rewrite length_app in Hlen. simpl in Hlen. lia.
Qed.

(** The ledger stays acceptable as long as nothing outside the
    destination directory changes. *)
Lemma ledger_ok_same fs fs' basedir :
  (forall q, ¬ (basedir ++ ["build"]) `prefix_of` q -> fs' !! q = fs !! q) ->
  ledger_ok fs basedir -> ledger_ok fs' basedir.
Proof.
  intros Hsame. unfold ledger_ok.
  rewrite (Hsame (Urls.path basedir)) by apply ledger_not_below.
  intros [[Hnone Hmissing]|Hfile]; [left|by right]. split; [done|].
  unfold missing in *.
  assert (existsb (is_file_at fs') (ancestors (Urls.path basedir))
          = existsb (is_file_at fs) (ancestors (Urls.path basedir))) as ->;
    [|done].
  unfold ancestors. induction (seq 0 _) as [|k ks IH]; [done|].
  rewrite !fmap_cons. cbn [existsb]. rewrite IH. f_equal.
  unfold is_file_at.
  destruct (take k (Urls.path basedir)) as [|c r] eqn:Htake; [done|].
  cbn [node_at]. rewrite Hsame; [done|]. rewrite <- Htake.
  intros Hpre.
  assert ((basedir ++ ["build"]) `prefix_of` Urls.path basedir);
    [|by eapply ledger_not_below].
  etrans; [done|]. apply prefix_take.
Qed.

(** The running of the actions and the audit, from a state in which the
    destination directory is there. *)
Lemma execute_and_audit_spec old_urls actions resources url_actions basedir
    fs1 l :
  let destdir := basedir ++ ["build"] in
  let new_urls : gset UrlPath.t := list_to_set url_actions.*1 in
  wf fs1 -> is_dir fs1 destdir = true -> ledger_ok fs1 basedir ->
  exists r fs2,
    gather actions (basedir ++ ["src"]) destdir resources (fs1, l) = (r, (fs2, l))
    ∧ wf fs2
    ∧ (forall q, ¬ below destdir q -> fs2 !! q = fs1 !! q)
    ∧ match r with
      | Next results =>
          execute_and_audit old_urls actions resources url_actions basedir (fs1, l)
          = if decide (old_urls ∖ new_urls ≠ ∅)
            then (Return 1%Z,
                  (fs2, l ++ result_log results
                          ++ (LogForgotten <$> UrlPath.sorted (old_urls ∖ new_urls))))
            else (Return 0%Z,
                  (<[Urls.path basedir := File (Urls.contents new_urls)]> fs2,
                   l ++ result_log results))
      | Return c => False
      | Raise e =>
          execute_and_audit old_urls actions resources url_actions basedir (fs1, l)
          = (Raise e, (fs2, l))
      end.
Proof.
  intros destdir new_urls Hwf Hdir Hok.
  destruct (gather actions (basedir ++ ["src"]) destdir resources (fs1, l))
    as [r [fs2 l2]] eqn:Hgather.
  destruct (gather_footprint _ _ _ _ _ _ _ _ _ Hwf Hdir Hgather)
    as (Hwf2 & Hdir2 & -> & Hsame).
  exists r, fs2. split; [done|]. split; [done|]. split; [done|].
  unfold execute_and_audit. fold destdir.
  destruct r as [results|c|e].
  - rewrite (bind_Next _ _ _ _ _ Hgather).
    rewrite (bind_Next _ _ _ tt (fs2, l ++ result_log results))
      by apply report_log.
    fold new_urls. case_decide as Hforgotten.
    + rewrite audit_forgotten by done. by rewrite <- (assoc_L (++)).
    + apply audit_written.
      { destruct (decide (old_urls ∖ new_urls = ∅)); [done|by destruct Hforgotten]. }
      apply write_ledger_ok.
      * apply (ledger_ok_same fs1); [|done].
        intros q Hq. apply Hsame. by intros [? _].
      * apply (wf_ancestors fs2 destdir); [done| | |].
        -- unfold is_dir in Hdir2. destruct (node_at fs2 destdir); [by eexists|done].
        -- by apply prefix_app_r.
        -- intros Heq. apply (f_equal length) in Heq. unfold destdir in Heq.
           rewrite length_app in Heq. simpl in Heq. lia.
  - unfold gather in Hgather.
    destruct (run_tasks _ _ _ _ _) as [done fs3].
    by destruct (first_exception done).
  - by rewrite (bind_Raise _ _ _ _ _ Hgather).
Qed.






(** What a successful [resolve] has read. *)
Lemma resolve_Next cfg basedir fs l old_urls actions resources s' :
  resolve cfg basedir (fs, l) = (Next (old_urls, actions, resources), s') ->
  Urls.read basedir fs = Val old_urls
  ∧ Resources.load basedir fs = Val resources
  ∧ exists source_actions redirects l',
      walk_and_load cfg (basedir ++ ["src"]) (fs, l)
      = (Next source_actions, (fs, l'))
      ∧ load_redirects basedir fs = Val redirects
      ∧ actions = source_actions ++ redirects
      ∧ s' = (fs, l').
Proof.
  unfold resolve. unfold bind at 1. unfold reading at 1.
  destruct (Urls.read basedir fs) as [old|]; [|done].
  unfold bind at 1.
  destruct (walk_and_load cfg (basedir ++ ["src"]) (fs, l))
    as [[source_actions| |] [fs1 l1]] eqn:Hwalk; [|done..].
  assert (fs1 = fs) as -> by by eapply walk_and_load_reads.
  unfold bind at 1. unfold reading at 1.
  destruct (load_redirects basedir fs) as [redirects|]; [|done].
  unfold bind at 1. unfold reading at 1.
  destruct (Resources.load basedir fs) as [res|]; [|done].
  unfold ret. intros [= <- <- <- <-].
  split; [done|]. split; [done|]. by exists source_actions, redirects, l1.
Qed.



End build_props.

Section build_theorems.

Context `{Externals}.

Implicit Types (fs : FS) (l : list log_entry) (basedir : Path).



(** X4.  The audit at the end of [build].  The new URL set is the set of
    the URLs the actions claim, whatever the results of running them.
    When a URL of the old ledger is not among them, [build] logs the
    forgotten URLs in sorted order after the results, returns 1 and
    leaves the ledger file as it was; otherwise it writes the new set to
    the ledger file and returns 0. *)
Theorem build_audit cfg basedir fs old_urls actions resources fs0 log0
    url_actions fs1 results fs2 :
  let srcdir := basedir ++ ["src"] in
  let destdir := basedir ++ ["build"] in
  let new_urls : gset UrlPath.t := list_to_set url_actions.*1 in
  wf fs ->
  resolve cfg basedir (fs, [])
  = (Next (old_urls, actions, resources), (fs0, log0)) ->
  gather_urls actions srcdir [] = Val url_actions ->
  Forall (fun e => length e.2 ≤ 1) url_actions ->
  clear_dest destdir (fs, log0) = (Next tt, (fs1, log0)) ->
  gather actions srcdir destdir resources (fs1, log0)
  = (Next results, (fs2, log0)) ->
  (forall u, u ∈ new_urls <-> exists a, a ∈ actions ∧ url a srcdir = Val u)
  ∧ (old_urls ∖ new_urls ≠ ∅ ->
     build cfg basedir (fs, [])
     = (Return 1%Z,
        (fs2, log0 ++ result_log results
                ++ (LogForgotten <$> UrlPath.sorted (old_urls ∖ new_urls))))
     ∧ fs2 !! Urls.path basedir = fs !! Urls.path basedir)
  ∧ (old_urls ∖ new_urls = ∅ ->
     build cfg basedir (fs, [])
     = (Return 0%Z,
        (<[Urls.path basedir := File (Urls.contents new_urls)]> fs2,
         log0 ++ result_log results))).
Proof.
  intros srcdir destdir new_urls Hwf Hres Hgather Hall Hclear Hrun.
  assert (fs0 = fs) as -> by by eapply resolve_reads.
  destruct (clear_dest_Next _ _ _ _ _ Hwf Hclear) as (Hwf1 & _ & Hdir1 & _ & Hsame1).
  assert (ledger_ok fs1 basedir) as Hok.
  { apply (ledger_ok_same fs); [done|].
    apply (read_ledger_ok _ _ old_urls).
    by destruct (resolve_Next _ _ _ _ _ _ _ _ Hres) as [? _]. }
  destruct (execute_and_audit_spec old_urls actions resources url_actions
              basedir fs1 log0 Hwf1 Hdir1 Hok)
    as (r & fs2' & Hrun' & _ & Hsame2 & Hspec).
  fold srcdir destdir in Hrun'. rewrite Hrun in Hrun'.
  injection Hrun' as <- <-. fold new_urls in Hspec.
  assert (build cfg basedir (fs, [])
          = execute_and_audit old_urls actions resources url_actions basedir
              (fs1, log0)) as ->.
  { rewrite (build_no_conflict _ _ _ _ _ _ _ _ Hres Hgather Hall).
    by rewrite (bind_Next _ _ _ _ _ Hclear). }
  split; [|split].
  - intros u. unfold new_urls. rewrite elem_of_list_to_set.
    by destruct (gather_urls_all _ _ _ Hgather) as (_ & _ & Hcover).
  - intros Hforgotten. rewrite Hspec, decide_True by done. split; [done|].
    rewrite Hsame2, Hsame1; [done|apply ledger_not_below|].
    intros [Hpre _]. by apply (ledger_not_below basedir).
  - intros Hnone. rewrite Hspec, decide_False; [done|]. by intros [].
Qed.

End build_theorems.



